(** * Chronos Scheduler: assignment ledger, history, scenarios, forecast

    A shallow embedding of the backend routes

      - backend/src/routes/schedule.ts   (assign, unassign, undo, redo, history)
      - backend/src/routes/scenarios.ts  (evaluate, apply)
      - backend/src/routes/analytics.ts  (forecast)

    together with the part of the PostgreSQL schema (prisma migration) that
    these routes read and write.

    Conventions of the embedding.

    - Identifiers, counts and capacities are JavaScript numbers holding
      integers (Prisma [Int]); they are modelled by [Z].
    - A JavaScript [Date] is modelled by its UTC calendar fields; the server
      is taken to run in UTC, so that local-time accessors ([getMonth],
      [setMonth], [new Date(y, m, d)]) and [toISOString] agree.
    - Non-integer JavaScript numbers (percentages, averages) are modelled by
      [JsNumber]: an exact rational, or one of the IEEE specials that a
      division by zero produces.  Rationals are kept in lowest terms.  The
      statements below pin such numbers down only at integer values (0, 1,
      100), where the double arithmetic of the routes is exact.
    - A route handler is a computation over the [World] (database tables,
      id sequence, the two in-memory history stacks) that either returns a
      response or throws; what was written before a throw stays written,
      except inside [prisma.$transaction]. *)

From Stdlib Require Import ZArith QArith Qround List String Ascii Bool Lia.
Import ListNotations.

Local Open Scope Z_scope.

(* ===================================================================== *)
(** ** JavaScript values *)
(* ===================================================================== *)

Module Js.

(** *** Dates (UTC calendar fields; [month0] is 0-based as in [getMonth]) *)

Record Date : Type := mkDate {
  year : Z;
  month0 : Z;
  day : Z;
  msOfDay : Z
}.

Definition date_eqb (a b : Date) : bool :=
  (year a =? year b) && (month0 a =? month0 b)
  && (day a =? day b) && (msOfDay a =? msOfDay b).

(** [a <= b] on time stamps, for calendar-normal dates. *)
Definition date_leb (a b : Date) : bool :=
  if year a <? year b then true else
  if year b <? year a then false else
  if month0 a <? month0 b then true else
  if month0 b <? month0 a then false else
  if day a <? day b then true else
  if day b <? day a then false else
  msOfDay a <=? msOfDay b.

Definition isLeap (y : Z) : bool :=
  ((y mod 4 =? 0) && negb (y mod 100 =? 0)) || (y mod 400 =? 0).

Definition daysInMonth (y m : Z) : Z :=
  if m =? 1 then (if isLeap y then 29 else 28)
  else if (m =? 3) || (m =? 5) || (m =? 8) || (m =? 10) then 30
  else 31.

(** [new Date(y, m, d)] and [setMonth]: the month may lie outside 0..11 and
    the day may exceed the length of the month; both carry over.  The day
    is at most 31 here, so one carry into the following month suffices. *)
Definition makeDate (y m d ms : Z) : Date :=
  let y' := y + m / 12 in
  let m' := m mod 12 in
  let len := daysInMonth y' m' in
  if d >? len
  then mkDate (y' + (m' + 1) / 12) ((m' + 1) mod 12) (d - len) ms
  else mkDate y' m' d ms.

Definition setMonth (d : Date) (m : Z) : Date :=
  makeDate (year d) m (day d) (msOfDay d).

(** *** [toISOString] and [substring] *)

Definition digitChar (n : Z) : ascii :=
  ascii_of_nat (48 + Z.to_nat (n mod 10)).

Definition pad2 (n : Z) : string :=
  String (digitChar (n / 10)) (String (digitChar n) EmptyString).

Definition pad3 (n : Z) : string :=
  String (digitChar (n / 100)) (pad2 n).

Definition pad4 (n : Z) : string :=
  append (pad2 (n / 100)) (pad2 n).

(** Years 0..9999, the four-digit form of [toISOString]. *)
Definition toISOString (d : Date) : string :=
  let ms := msOfDay d in
  append (pad4 (year d)) (append "-" (append (pad2 (month0 d + 1))
  (append "-" (append (pad2 (day d)) (append "T"
  (append (pad2 (ms / 3600000)) (append ":"
  (append (pad2 (ms / 60000 mod 60)) (append ":"
  (append (pad2 (ms / 1000 mod 60)) (append "."
  (append (pad3 (ms mod 1000)) "Z")))))))))))).

(** [s.substring(0, 7)] *)
Definition substring07 (s : string) : string := substring 0 7 s.

(** *** Numbers that need not be integers *)

Inductive JsNumber : Type :=
| Finite (q : Q)
| PosInfinity
| NegInfinity
| NaN.

Definition ofZ (n : Z) : JsNumber := Finite (inject_Z n).

(** [a / b] for integer-valued [a] and [b]. *)
Definition divZ (a b : Z) : JsNumber :=
  if b =? 0 then
    (if a =? 0 then NaN else if a >? 0 then PosInfinity else NegInfinity)
  else Finite (Qred (inject_Z a / inject_Z b)).

(** [x * k] and [x / k] for a positive constant [k]. *)
Definition mulConst (x : JsNumber) (k : Q) : JsNumber :=
  match x with
  | Finite q => Finite (Qred (q * k))
  | other => other
  end.

Definition divConst (x : JsNumber) (k : Q) : JsNumber :=
  match x with
  | Finite q => Finite (Qred (q / k))
  | other => other
  end.

(** [x >= k]; every comparison with [NaN] is false. *)
Definition geConst (x : JsNumber) (k : Q) : bool :=
  match x with
  | Finite q => Qle_bool k q
  | PosInfinity => true
  | NegInfinity => false
  | NaN => false
  end.

(** [Math.round]: the nearest integer, ties towards +infinity. *)
Definition roundQ (q : Q) : Z := Qfloor (q + (1 # 2)).

Definition mathRound (x : JsNumber) : JsNumber :=
  match x with
  | Finite q => Finite (inject_Z (roundQ q))
  | other => other
  end.

(** [Math.round(x * 100) / 100] *)
Definition round2 (x : JsNumber) : JsNumber :=
  divConst (mathRound (mulConst x 100)) 100.

(** Truthiness of a [string | null]: [null] and the empty string are falsy. *)
Definition truthy (s : option string) : bool :=
  match s with
  | None => false
  | Some EmptyString => false
  | Some _ => true
  end.

(** An insertion-ordered [Map<K, V>]: [set] on a present key keeps its
    position, on an absent key appends.  [keq] is the key equality. *)
Section InsertionOrderedMap.
Context {K V : Type}.
Variable keq : K -> K -> bool.

Fixpoint mapGet (k : K) (m : list (K * V)) : option V :=
  match m with
  | [] => None
  | (k', v) :: rest => if keq k k' then Some v else mapGet k rest
  end.

Fixpoint mapSet (k : K) (v : V) (m : list (K * V)) : list (K * V) :=
  match m with
  | [] => [(k, v)]
  | (k', v') :: rest =>
      if keq k k' then (k', v) :: rest else (k', v') :: mapSet k v rest
  end.
End InsertionOrderedMap.

(** [Set<string>.add], insertion-ordered; [size] is the length. *)
Definition setAdd (x : string) (s : list string) : list string :=
  if existsb (String.eqb x) s then s else s ++ [x].

(** [Array.prototype.pop]: the last element and the remaining array. *)
Fixpoint pop {A : Type} (l : list A) : option (A * list A) :=
  match l with
  | [] => None
  | x :: rest =>
      match pop rest with
      | None => Some (x, [])
      | Some (y, rest') => Some (y, x :: rest')
      end
  end.

(** [Array.prototype.shift] drops index 0. *)
Definition shift {A : Type} (l : list A) : list A := tl l.

End Js.

Import Js.

(* ===================================================================== *)
(** ** The store: tables of the migration, and the in-memory history *)
(* ===================================================================== *)

(** Columns the scheduling routes never read or write (mark, customer,
    city, code, ...) are left out of the rows. *)

Record Car : Type := mkCar {
  car_id : Z;
  car_status : string;          (* TEXT, default 'unscheduled' *)
  car_updatedAt : Date
}.

Record Shop : Type := mkShop {
  shop_id : Z;
  shop_name : string;
  shop_capacity : Z             (* INTEGER NOT NULL, no CHECK constraint *)
}.

Record Assignment : Type := mkAssignment {
  a_id : Z;                     (* SERIAL *)
  a_carId : Z;
  a_shopId : Z;
  a_month : Date;               (* TIMESTAMP(3) *)
  a_createdAt : Date;
  a_updatedAt : Date
}.

(** interface ScenarioAssignment { carId; shopId; month: string } *)
Record ScenarioAssignment : Type := mkScenarioAssignment {
  sa_carId : Z;
  sa_shopId : Z;
  sa_month : string
}.

(** [sc_assignments] is [scenario.data.assignments] when that is an array,
    and [None] otherwise. *)
Record Scenario : Type := mkScenario {
  sc_id : Z;
  sc_name : string;
  sc_assignments : option (list ScenarioAssignment)
}.

Record Db : Type := mkDb {
  cars : list Car;
  shops : list Shop;
  assignments : list Assignment;
  scenarios : list Scenario;
  assignmentSeq : Z             (* last value of "Assignment_id_seq" *)
}.

Inductive ActionType : Type := create | update | delete.

(** interface HistoryAction { type; data: { assignment }; timestamp } *)
Record HistoryAction : Type := mkAction {
  act_type : ActionType;
  act_assignment : Assignment;
  act_timestamp : Date
}.

(** The two module-level arrays of schedule.ts, in array order: index 0
    first, the most recently pushed element last. *)
Record World : Type := mkWorld {
  db : Db;
  undoStack : list HistoryAction;
  redoStack : list HistoryAction
}.

Definition MAX_HISTORY : Z := 50.

Definition withDb (w : World) (d : Db) : World :=
  mkWorld d (undoStack w) (redoStack w).

Definition withAssignments (d : Db) (l : list Assignment) : Db :=
  mkDb (cars d) (shops d) l (scenarios d) (assignmentSeq d).

Definition withCars (d : Db) (l : list Car) : Db :=
  mkDb l (shops d) (assignments d) (scenarios d) (assignmentSeq d).

Definition withSeq (d : Db) (n : Z) : Db :=
  mkDb (cars d) (shops d) (assignments d) (scenarios d) n.

(* ===================================================================== *)
(** ** Handlers as computations that may throw *)
(* ===================================================================== *)

(** Prisma's known request errors, as far as the schema can raise them
    here, and the validation error raised for an Invalid Date. *)
Inductive PrismaCode : Type :=
| P2002            (* unique constraint failed *)
| P2003            (* foreign key constraint failed *)
| P2025            (* record to update / delete not found *)
| PValidation.

(** Modelled from the spec: [createError] of middleware/errorHandler, which
    is not among the sources; as the routes use it and as the specification
    describes errors (a typed failure with a descriptive message), it
    builds an error carrying [message] and [statusCode].  The other
    constructor is an error thrown by Prisma, which the catch block of
    every route re-throws with status 500. *)
Inductive Error : Type :=
| HttpError (message : string) (statusCode : Z)
| PrismaError (code : PrismaCode).

Definition statusOf (e : Error) : Z :=
  match e with
  | HttpError _ s => s
  | PrismaError _ => 500
  end.

Inductive Result (A : Type) : Type :=
| Ok (a : A)
| Throw (e : Error).

Arguments Ok {A} a.
Arguments Throw {A} e.

Definition M (A : Type) : Type := World -> World * Result A.

Definition ret {A} (a : A) : M A := fun w => (w, Ok a).

Definition throw {A} (e : Error) : M A := fun w => (w, Throw e).

Definition bind {A B} (m : M A) (k : A -> M B) : M B :=
  fun w =>
    match m w with
    | (w', Ok a) => k a w'
    | (w', Throw e) => (w', Throw e)
    end.

Declare Scope handler_scope.
Delimit Scope handler_scope with handler.

Notation "x <- m ;; k" := (bind m (fun x => k))
  (at level 61, m at next level, right associativity) : handler_scope.
Notation "m ;;; k" := (bind m (fun _ => k))
  (at level 61, right associativity) : handler_scope.

Local Open Scope handler_scope.

Definition readDb {A} (f : Db -> A) : M A := fun w => (w, Ok (f (db w))).

(** *** Prisma queries *)

Module prisma.

Definition findCar (id : Z) (d : Db) : option Car :=
  find (fun c => car_id c =? id) (cars d).

Definition findShop (id : Z) (d : Db) : option Shop :=
  find (fun s => shop_id s =? id) (shops d).

Definition findScenario (id : Z) (d : Db) : option Scenario :=
  find (fun s => sc_id s =? id) (scenarios d).

Definition findAssignment (id : Z) (d : Db) : option Assignment :=
  find (fun a => a_id a =? id) (assignments d).

(** findUnique({ where: { carId_month: { carId, month } } }) *)
Definition findByCarMonth (carId : Z) (month : Date) (d : Db) : option Assignment :=
  find (fun a => (a_carId a =? carId) && date_eqb (a_month a) month) (assignments d).

(** count({ where: { shopId, month } }) *)
Definition countShopMonth (shopId : Z) (month : Date) (d : Db) : Z :=
  Z.of_nat (List.length (filter
    (fun a => (a_shopId a =? shopId) && date_eqb (a_month a) month) (assignments d))).

(** count({ where: { carId } }) *)
Definition countCar (carId : Z) (d : Db) : Z :=
  Z.of_nat (List.length (filter (fun a => a_carId a =? carId) (assignments d))).

(** assignment.create: the id comes from the sequence, which advances
    whether or not the row is accepted; the primary key, the unique index
    on (carId, month) and the two foreign keys are then checked. *)
Definition createAssignment (now : Date) (carId shopId : Z) (month : Date)
  : M Assignment :=
  fun w =>
    let newId := assignmentSeq (db w) + 1 in
    let d := withSeq (db w) newId in
    match findAssignment newId d, findByCarMonth carId month d with
    | Some _, _ | _, Some _ => (withDb w d, Throw (PrismaError P2002))
    | None, None =>
        match findCar carId d, findShop shopId d with
        | Some _, Some _ =>
            let a := mkAssignment newId carId shopId month now now in
            (withDb w (withAssignments d (assignments d ++ [a])), Ok a)
        | _, _ => (withDb w d, Throw (PrismaError P2003))
        end
    end.

(** assignment.delete({ where: { id } }) *)
Definition deleteAssignment (id : Z) : M Assignment :=
  fun w =>
    match findAssignment id (db w) with
    | None => (w, Throw (PrismaError P2025))
    | Some a =>
        (withDb w (withAssignments (db w)
           (filter (fun x => negb (a_id x =? id)) (assignments (db w)))), Ok a)
    end.

(** car.update({ where: { id }, data: { status } }) *)
Definition updateCarStatus (now : Date) (id : Z) (status : string) : M Car :=
  fun w =>
    match findCar id (db w) with
    | None => (w, Throw (PrismaError P2025))
    | Some c =>
        let c' := mkCar id status now in
        (withDb w (withCars (db w)
           (map (fun x => if car_id x =? id then c' else x) (cars (db w)))), Ok c')
    end.

(** prisma.$transaction: when the body throws, every table is put back as
    it was; the id sequence is not transactional, and neither is the
    memory of the process. *)
Definition transaction {A} (body : M A) : M A :=
  fun w =>
    match body w with
    | (w', Ok a) => (w', Ok a)
    | (w', Throw e) =>
        (mkWorld (withSeq (db w) (assignmentSeq (db w')))
                 (undoStack w') (redoStack w'), Throw e)
    end.

End prisma.

(* ===================================================================== *)
(** ** routes/schedule.ts *)
(* ===================================================================== *)

(** The effect of addToHistory on the undo array: push, then shift when
    the length exceeds MAX_HISTORY. *)
Definition pushCapped (stack : list HistoryAction) (action : HistoryAction)
  : list HistoryAction :=
  let pushed := stack ++ [action] in
  if Z.of_nat (List.length pushed) >? MAX_HISTORY then shift pushed else pushed.

(** addToHistory; [redoStack.length = 0] empties the redo array. *)
Definition addToHistory (action : HistoryAction) : M unit :=
  fun w => (mkWorld (db w) (pushCapped (undoStack w) action) [], Ok tt).

Record AssignRequest : Type := mkAssignRequest {
  req_carId : Z;
  req_shopId : Z;
  req_month : string
}.

Record AssignResponse : Type := mkAssignResponse {
  res_data : Assignment;
  res_warning : option string
}.

(** The sizes reported by the undo and redo answers. *)
Record StackSizes : Type := mkStackSizes {
  undoStackSize : Z;
  redoStackSize : Z
}.

Definition stackSizes (w : World) : StackSizes :=
  mkStackSizes (Z.of_nat (List.length (undoStack w)))
               (Z.of_nat (List.length (redoStack w))).

(** The answer of GET /api/schedule/history. *)
Record HistoryState : Type := mkHistoryState {
  hs_sizes : StackSizes;
  canUndo : bool;
  canRedo : bool
}.

Definition historyState (w : World) : HistoryState :=
  mkHistoryState (stackSizes w)
    (Z.of_nat (List.length (undoStack w)) >? 0)
    (Z.of_nat (List.length (redoStack w)) >? 0).

Definition overCapacityWarning (shop : Shop) : string :=
  append "Shop " (append (shop_name shop) " is over capacity for this month").

(** Remove an assignment and, when the car has none left in any month,
    set the car back to 'unscheduled' (shared by unassign, undo, redo). *)
Definition deleteAndRestatus (now : Date) (a : Assignment) : M unit :=
  prisma.deleteAssignment (a_id a) ;;;
  otherAssignments <- readDb (prisma.countCar (a_carId a)) ;;
  if otherAssignments =? 0
  then prisma.updateCarStatus now (a_carId a) "unscheduled" ;;; ret tt
  else ret tt.

(** Insert an assignment with the car, shop and month of a logged one and
    mark the car 'scheduled' (shared by undo and redo). *)
Definition recreateAndRestatus (now : Date) (a : Assignment) : M unit :=
  prisma.createAssignment now (a_carId a) (a_shopId a) (a_month a) ;;;
  prisma.updateCarStatus now (a_carId a) "scheduled" ;;;
  ret tt.

(** DELETE /api/schedule/unassign/:id *)
Definition unassign (now : Date) (assignmentId : Z) : M unit :=
  found <- readDb (prisma.findAssignment assignmentId) ;;
  match found with
  | None => throw (HttpError "Assignment not found" 404)
  | Some assignment =>
      addToHistory (mkAction delete assignment now) ;;;
      deleteAndRestatus now assignment
  end.

(** POST /api/schedule/undo *)
Definition undo (now : Date) : M StackSizes :=
  fun w =>
    match pop (undoStack w) with
    | None => (w, Throw (HttpError "Nothing to undo" 400))
    | Some (action, rest) =>
        let w1 := mkWorld (db w) rest (redoStack w ++ [action]) in
        (match act_type action with
         | create => deleteAndRestatus now (act_assignment action)
         | delete => recreateAndRestatus now (act_assignment action)
         | update => ret tt
         end ;;;
         fun w2 => (w2, Ok (stackSizes w2))) w1
    end.

(** POST /api/schedule/redo *)
Definition redo (now : Date) : M StackSizes :=
  fun w =>
    match pop (redoStack w) with
    | None => (w, Throw (HttpError "Nothing to redo" 400))
    | Some (action, rest) =>
        let w1 := mkWorld (db w) (undoStack w ++ [action]) rest in
        (match act_type action with
         | create => recreateAndRestatus now (act_assignment action)
         | delete => deleteAndRestatus now (act_assignment action)
         | update => ret tt
         end ;;;
         fun w2 => (w2, Ok (stackSizes w2))) w1
    end.

(** GET /api/schedule/history *)
Definition history : M HistoryState :=
  fun w => (w, Ok (historyState w)).

Section RoutesWithDateParsing.

(** [new Date(s)] for a string [s]; [None] is Invalid Date. *)
Variable newDate : string -> option Date.

(** POST /api/schedule/assign *)
Definition assign (now : Date) (req : AssignRequest) : M AssignResponse :=
  let carId := req_carId req in
  let shopId := req_shopId req in
  if (carId =? 0) || (shopId =? 0) || String.eqb (req_month req) EmptyString
  then throw (HttpError "carId, shopId, and month are required" 400)
  else
    car <- readDb (prisma.findCar carId) ;;
    match car with
    | None => throw (HttpError "Car not found" 404)
    | Some _ =>
    shop <- readDb (prisma.findShop shopId) ;;
    match shop with
    | None => throw (HttpError "Shop not found" 404)
    | Some shop =>
    match newDate (req_month req) with
    | None => throw (PrismaError PValidation)
    | Some monthDate =>
    existing <- readDb (prisma.findByCarMonth carId monthDate) ;;
    match existing with
    | Some _ => throw (HttpError "Car already assigned for this month" 400)
    | None =>
    monthAssignments <- readDb (prisma.countShopMonth shopId monthDate) ;;
    let isOverCapacity := monthAssignments >=? shop_capacity shop in
    assignment <- prisma.createAssignment now carId shopId monthDate ;;
    prisma.updateCarStatus now carId "scheduled" ;;;
    addToHistory (mkAction create assignment now) ;;;
    ret (mkAssignResponse assignment
           (if isOverCapacity then Some (overCapacityWarning shop) else None))
    end end end end.

(* --------------------------------------------------------------------- *)
(** *** routes/scenarios.ts: apply *)

(** The loop inside the transaction of POST /api/scenarios/:id/apply. *)
Fixpoint applyLoop (now : Date) (l : list ScenarioAssignment)
    (created : list Assignment) : M (list Assignment) :=
  match l with
  | [] => ret created
  | sa :: rest =>
      match newDate (sa_month sa) with
      | None => throw (PrismaError PValidation)
      | Some month =>
          existing <- readDb (prisma.findByCarMonth (sa_carId sa) month) ;;
          match existing with
          | Some _ => applyLoop now rest created
          | None =>
              newAssignment <-
                prisma.createAssignment now (sa_carId sa) (sa_shopId sa) month ;;
              prisma.updateCarStatus now (sa_carId sa) "scheduled" ;;;
              applyLoop now rest (created ++ [newAssignment])
          end
      end
  end.

(** POST /api/scenarios/:id/apply *)
Definition applyScenario (now : Date) (scenarioId : Z) : M (list Assignment) :=
  scenario <- readDb (prisma.findScenario scenarioId) ;;
  match scenario with
  | None => throw (HttpError "Scenario not found" 404)
  | Some sc =>
      match sc_assignments sc with
      | None => throw (HttpError "Invalid scenario data" 400)
      | Some l => prisma.transaction (applyLoop now l [])
      end
  end.

End RoutesWithDateParsing.

(* ===================================================================== *)
(** ** routes/scenarios.ts: evaluate *)
(* ===================================================================== *)

Inductive FitStatus : Type := green | yellow | red.

Definition FitStatus_eqb (a b : FitStatus) : bool :=
  match a, b with
  | green, green | yellow, yellow | red, red => true
  | _, _ => false
  end.

Record FitResult : Type := mkFitResult {
  fr_shopId : Z;
  fr_shopName : string;
  fr_capacity : Z;
  fr_currentAssigned : Z;
  fr_scenarioAssigned : Z;
  fr_totalAssigned : Z;
  fr_utilizationPercent : JsNumber;
  fr_status : FitStatus;
  fr_overload : Z;
  fr_earliestSlot : option string
}.

Record Summary : Type := mkSummary {
  sum_green : Z;
  sum_yellow : Z;
  sum_red : Z
}.

Record Evaluation : Type := mkEvaluation {
  ev_fitScore : JsNumber;
  ev_totalOverload : Z;
  ev_shops : list FitResult;
  ev_summary : Summary
}.

(** The value type of [monthlyData]: { current, scenario }. *)
Record Counts : Type := mkCounts { current : Z; scenario : Z }.

Definition MonthlyData : Type := list (string * Counts).

Definition getOrZero (key : string) (m : MonthlyData) : Counts :=
  match mapGet String.eqb key m with
  | Some c => c
  | None => mkCounts 0 0
  end.

Definition addCurrent (m : MonthlyData) (a : Assignment) : MonthlyData :=
  let monthKey := substring07 (toISOString (a_month a)) in
  let existing := getOrZero monthKey m in
  mapSet String.eqb monthKey (mkCounts (current existing + 1) (scenario existing)) m.

Definition addScenario (m : MonthlyData) (a : ScenarioAssignment) : MonthlyData :=
  let monthKey := substring07 (sa_month a) in
  let existing := getOrZero monthKey m in
  mapSet String.eqb monthKey (mkCounts (current existing) (scenario existing + 1)) m.

Definition currentOf (shop : Shop) (l : list Assignment) : list Assignment :=
  filter (fun a => a_shopId a =? shop_id shop) l.

Definition scenarioOf (shop : Shop) (l : list ScenarioAssignment)
  : list ScenarioAssignment :=
  filter (fun a => sa_shopId a =? shop_id shop) l.

Definition monthlyDataOf (shop : Shop) (currentAssignments : list Assignment)
    (proposed : list ScenarioAssignment) : MonthlyData :=
  fold_left addScenario (scenarioOf shop proposed)
    (fold_left addCurrent (currentOf shop currentAssignments) []).

(** The three variables updated by the loop over [monthlyData.entries()]. *)
Record Scan : Type := mkScan {
  maxTotal : Z;
  maxOverload : Z;
  earliestSlot : option string
}.

Definition scanStep (capacity : Z) (s : Scan) (entry : string * Counts) : Scan :=
  let (month, counts) := entry in
  let total := current counts + scenario counts in
  let maxTotal' := if total >? maxTotal s then total else maxTotal s in
  let maxOverload' :=
    if total >? capacity then
      (let overload := total - capacity in
       if overload >? maxOverload s then overload else maxOverload s)
    else maxOverload s in
  let earliestSlot' :=
    if (total <? capacity) && negb (truthy (earliestSlot s))
    then Some month else earliestSlot s in
  mkScan maxTotal' maxOverload' earliestSlot'.

Definition scan (capacity : Z) (m : MonthlyData) : Scan :=
  fold_left (scanStep capacity) m (mkScan 0 0 None).

(** new Date(now.getFullYear(), now.getMonth() + 1, 1).toISOString().substring(0, 7) *)
Definition nextMonthKey (now : Date) : string :=
  substring07 (toISOString (makeDate (year now) (month0 now + 1) 1 0)).

Definition statusOfFit (maxTotal capacity : Z) (utilizationPercent : JsNumber)
  : FitStatus :=
  if maxTotal >? capacity then red
  else if geConst utilizationPercent 80 then yellow
  else green.

(** One iteration of [for (const shop of shops)]. *)
Definition fitOf (now : Date) (currentAssignments : list Assignment)
    (proposed : list ScenarioAssignment) (shop : Shop) : FitResult :=
  let s := scan (shop_capacity shop) (monthlyDataOf shop currentAssignments proposed) in
  let slot :=
    if negb (truthy (earliestSlot s)) then Some (nextMonthKey now)
    else earliestSlot s in
  let currentTotal := Z.of_nat (List.length (currentOf shop currentAssignments)) in
  let scenarioTotal := Z.of_nat (List.length (scenarioOf shop proposed)) in
  let utilizationPercent := mulConst (divZ (maxTotal s) (shop_capacity shop)) 100 in
  mkFitResult (shop_id shop) (shop_name shop) (shop_capacity shop)
    currentTotal scenarioTotal (maxTotal s)
    (round2 utilizationPercent)
    (statusOfFit (maxTotal s) (shop_capacity shop) utilizationPercent)
    (maxOverload s) slot.

Definition countStatus (st : FitStatus) (l : list FitResult) : Z :=
  Z.of_nat (List.length (filter (fun r => FitStatus_eqb (fr_status r) st) l)).

Definition evaluation (now : Date) (d : Db) (proposed : list ScenarioAssignment)
  : Evaluation :=
  let fitResults := map (fitOf now (assignments d) proposed) (shops d) in
  let greenCount := countStatus green fitResults in
  let nShops := Z.of_nat (List.length (shops d)) in
  let fitScore :=
    if nShops >? 0 then mulConst (divZ greenCount nShops) 100 else ofZ 0 in
  let totalOverload := fold_left (fun sum r => sum + fr_overload r) fitResults 0 in
  mkEvaluation (round2 fitScore) totalOverload fitResults
    (mkSummary greenCount (countStatus yellow fitResults) (countStatus red fitResults)).

(** POST /api/scenarios/evaluate; the body's [assignments] is [None] when
    it is missing or not an array. *)
Definition evaluate (now : Date) (body : option (list ScenarioAssignment))
  : M Evaluation :=
  match body with
  | None => throw (HttpError "assignments array is required" 400)
  | Some proposed => readDb (fun d => evaluation now d proposed)
  end.

(* ===================================================================== *)
(** ** routes/analytics.ts: forecast *)
(* ===================================================================== *)

Inductive ForecastStatus : Type := over | near | good.

Record ForecastPoint : Type := mkForecastPoint {
  fp_month : string;
  fp_projected : Z;
  fp_capacity : Z;
  fp_utilizationPercent : JsNumber;
  fp_status : ForecastStatus
}.

Record ShopForecast : Type := mkShopForecast {
  sf_shopId : Z;
  sf_shopName : string;
  sf_avgMonthlyAssignments : JsNumber;
  sf_forecast : list ForecastPoint
}.

(** The value type of [shopStats]: { total, months: Set<string> }. *)
Record Stats : Type := mkStats { total : Z; months : list string }.

Definition ShopStats : Type := list (Z * Stats).

Definition statsOf (shopId : Z) (m : ShopStats) : Stats :=
  match mapGet Z.eqb shopId m with
  | Some s => s
  | None => mkStats 0 []
  end.

Definition addStat (m : ShopStats) (a : Assignment) : ShopStats :=
  let monthKey := substring07 (toISOString (a_month a)) in
  let stats := statsOf (a_shopId a) m in
  mapSet Z.eqb (a_shopId a)
    (mkStats (total stats + 1) (setAdd monthKey (months stats))) m.

(** sixMonthsAgo.setMonth(sixMonthsAgo.getMonth() - 6) *)
Definition sixMonthsAgo (now : Date) : Date := setMonth now (month0 now - 6).

(** findMany({ where: { month: { gte: sixMonthsAgo } } }) *)
Definition historicalAssignments (now : Date) (d : Db) : list Assignment :=
  filter (fun a => date_leb (sixMonthsAgo now) (a_month a)) (assignments d).

Definition shopStats (now : Date) (d : Db) : ShopStats :=
  fold_left addStat (historicalAssignments now d) [].

(** stats.months.size > 0 ? stats.total / stats.months.size : 0 *)
Definition avgPerMonth (stats : Stats) : Q :=
  let size := Z.of_nat (List.length (months stats)) in
  if size >? 0 then Qred (inject_Z (total stats) / inject_Z size) else 0%Q.

Definition forecastStatus (projected capacity : Z) : ForecastStatus :=
  if projected >? capacity then over
  else if Qle_bool (inject_Z capacity * (8 # 10)) (inject_Z projected) then near
  else good.

(** The [for (let i = 0; i < months; i++)] loop; [current] is advanced by
    [setMonth(getMonth() + 1)] before each entry is produced. *)
Fixpoint forecastLoop (n : nat) (current : Date) (avg : Q) (capacity : Z)
  : list ForecastPoint :=
  match n with
  | O => []
  | S n' =>
      let current' := setMonth current (month0 current + 1) in
      let monthKey := substring07 (toISOString current') in
      let projected := roundQ avg in
      let utilizationPercent := mulConst (divZ projected capacity) 100 in
      mkForecastPoint monthKey projected capacity (round2 utilizationPercent)
        (forecastStatus projected capacity)
      :: forecastLoop n' current' avg capacity
  end.

(** parseInt(req.query.months) || 6, where [None] is NaN. *)
Definition monthsParam (q : option Z) : Z :=
  match q with
  | Some n => if n =? 0 then 6 else n
  | None => 6
  end.

Definition forecastOf (now : Date) (stats : ShopStats) (months : Z) (shop : Shop)
  : ShopForecast :=
  let avg := avgPerMonth (statsOf (shop_id shop) stats) in
  mkShopForecast (shop_id shop) (shop_name shop)
    (round2 (Finite avg))
    (forecastLoop (Z.to_nat months) now avg (shop_capacity shop)).

(** GET /api/analytics/forecast *)
Definition forecast (now : Date) (monthsQuery : option Z) : M (list ShopForecast) :=
  readDb (fun d =>
    map (forecastOf now (shopStats now d) (monthsParam monthsQuery)) (shops d)).

(** The window the comment in the route and the specification describe:
    "historical data (last 6 months)", i.e. months from six months ago up
    to now.  Used only to compare the route against. *)
Definition inTrailingWindow (now : Date) (a : Assignment) : bool :=
  date_leb (sixMonthsAgo now) (a_month a) && date_leb (a_month a) now.

Definition trailingWindowOf (now : Date) (shop : Shop) (d : Db) : list Assignment :=
  filter (fun a => inTrailingWindow now a && (a_shopId a =? shop_id shop))
    (assignments d).

(* ===================================================================== *)
(** ** Reachable worlds *)
(* ===================================================================== *)

Definition sameHistory (w w' : World) : Prop :=
  undoStack w' = undoStack w /\ redoStack w' = redoStack w.

Section Reachability.

Variable newDate : string -> option Date.

(** One request served, whether it answers or throws.  [step_other] stands
    for the routes that edit cars, shops and scenarios: they write tables
    but have no access to the history arrays of schedule.ts. *)
Inductive step : World -> World -> Prop :=
| step_assign now req w :
    step w (fst (assign newDate now req w))
| step_unassign now id w :
    step w (fst (unassign now id w))
| step_undo now w :
    step w (fst (undo now w))
| step_redo now w :
    step w (fst (redo now w))
| step_history w :
    step w (fst (history w))
| step_evaluate now body w :
    step w (fst (evaluate now body w))
| step_apply now id w :
    step w (fst (applyScenario newDate now id w))
| step_forecast now q w :
    step w (fst (forecast now q w))
| step_other w w' :
    sameHistory w w' -> step w w'.

(** The process starts with both history arrays empty. *)
Inductive reachable : World -> Prop :=
| reach_start d : reachable (mkWorld d [] [])
| reach_step w w' : reachable w -> step w w' -> reachable w'.

End Reachability.

(* ===================================================================== *)
(** ** Example data *)
(* ===================================================================== *)

Module Examples.

Definition digitOf (c : ascii) : option Z :=
  let n := Z.of_nat (nat_of_ascii c) in
  if (48 <=? n) && (n <=? 57) then Some (n - 48) else None.

Fixpoint digitsOf (s : string) (acc : Z) : option Z :=
  match s with
  | EmptyString => Some acc
  | String c rest =>
      match digitOf c with
      | Some d => digitsOf rest (acc * 10 + d)
      | None => None
      end
  end.

(** [new Date(s)] on the date-only ISO form YYYY-MM-DD, which ECMAScript
    reads as midnight UTC of that day; every other string is treated as
    Invalid Date here.  The examples run the routes with this parser. *)
Definition isoDateOnly (s : string) : option Date :=
  if (Nat.eqb (String.length s) 10)
     && String.eqb (substring 4 1 s) "-" && String.eqb (substring 7 1 s) "-"
  then
    match digitsOf (substring 0 4 s) 0, digitsOf (substring 5 2 s) 0,
          digitsOf (substring 8 2 s) 0 with
    | Some y, Some m, Some d =>
        if (1 <=? m) && (m <=? 12) && (1 <=? d) && (d <=? daysInMonth y (m - 1))
        then Some (mkDate y (m - 1) d 0) else None
    | _, _, _ => None
    end
  else None.

Definition dec2024 : Date := mkDate 2024 11 1 0.
Definition noon (y m d : Z) : Date := mkDate y (m - 1) d 43200000.

Definition carsUpTo (n : nat) : list Car :=
  map (fun i => mkCar (Z.of_nat i) "unscheduled" (noon 2024 1 1)) (seq 1 n).

(** [n] committed assignments of cars [1..n] to [shopId] in [month]. *)
Definition committed (n : nat) (shopId : Z) (month : Date) : list Assignment :=
  map (fun i => mkAssignment (Z.of_nat i) (Z.of_nat i) shopId month
                  (noon 2024 1 2) (noon 2024 1 2)) (seq 1 n).

(** [n] proposed assignments of cars [from+1 .. from+n] to [shopId]. *)
Definition proposedFor (from n : nat) (shopId : Z) (month : string)
  : list ScenarioAssignment :=
  map (fun i => mkScenarioAssignment (Z.of_nat i) shopId month) (seq (S from) n).

Definition shop50 : Shop := mkShop 1 "Shop-A" 50.
Definition shop30 : Shop := mkShop 2 "Shop-B" 30.

(** Capacity 50, forty cars committed for December 2024. *)
Definition ledger40 : Db :=
  mkDb (carsUpTo 60) [shop50] (committed 40 1 dec2024) [] 40.

(** The same ledger with a second shop that nothing is assigned to. *)
Definition twoShops : Db :=
  mkDb (carsUpTo 60) [shop50; shop30] (committed 40 1 dec2024) [] 40.

(** Capacity 50 with all fifty places of December 2024 taken. *)
Definition ledger50 : Db :=
  mkDb (carsUpTo 60) [shop50] (committed 50 1 dec2024) [] 50.

Definition world40 : World := mkWorld ledger40 [] [].

(** Car 41 is assigned for January 2025, the assignment is undone, redone,
    and undone once more. *)
Definition assign41 : AssignRequest := mkAssignRequest 41 1 "2025-01-01".
Definition assign42 : AssignRequest := mkAssignRequest 42 1 "2025-01-01".

Definition afterAssign : World :=
  fst (assign isoDateOnly (noon 2024 11 20) assign41 world40).
Definition afterUndo : World := fst (undo (noon 2024 11 21) afterAssign).
Definition afterRedo : World := fst (redo (noon 2024 11 22) afterUndo).

(** Fifty-one assign calls, cars 1 to 51, all for January 2025. *)
Definition callFor (i : nat) : Date * AssignRequest :=
  (noon 2024 11 20, mkAssignRequest (Z.of_nat i) 1 "2025-01-01").

Definition calls51 : list (Date * AssignRequest) :=
  callFor 1 :: map callFor (seq 2 50).

(** Two stored scenarios: plan 7 proposes two new assignments and one that
    the ledger already holds; plan 8 names a shop that does not exist in
    its second tuple. *)
Definition plan7 : Scenario :=
  mkScenario 7 "Q1 plan"
    (Some [mkScenarioAssignment 41 1 "2025-01-01";
           mkScenarioAssignment 1 1 "2024-12-01";
           mkScenarioAssignment 42 1 "2025-01-01"]).

Definition plan8 : Scenario :=
  mkScenario 8 "Broken plan"
    (Some [mkScenarioAssignment 41 1 "2025-01-01";
           mkScenarioAssignment 42 99 "2025-01-01"]).

Definition planWorld : World :=
  mkWorld (mkDb (carsUpTo 60) [shop50] (committed 40 1 dec2024) [plan7; plan8] 40)
          [] [].

(** One shop whose only assignment lies three months ahead of the clock
    (15 June 2024). *)
Definition june15 : Date := noon 2024 6 15.

Definition futureOnly : Db :=
  mkDb (carsUpTo 5) [shop50]
       [mkAssignment 1 1 1 (mkDate 2024 8 1 0) (noon 2024 6 1) (noon 2024 6 1)]
       [] 1.

End Examples.

(* ===================================================================== *)
(** ** Auxiliary notions used by the statements *)
(* ===================================================================== *)

(** What SERIAL primary keys guarantee: ids are positive and the sequence
    of "Assignment" is never behind a stored row. *)
Definition db_wf (d : Db) : Prop :=
  (forall a, In a (assignments d) -> a_id a <= assignmentSeq d)
  /\ (forall c, In c (cars d) -> 0 < car_id c)
  /\ (forall s, In s (shops d) -> 0 < shop_id s).

Definition statusOfCar (carId : Z) (d : Db) : option string :=
  option_map car_status (prisma.findCar carId d).

(** The last [n] elements of an array. *)
Definition lastn {A : Type} (n : nat) (l : list A) : list A :=
  skipn (List.length l - n) l.

(** A fit result with its [earliestSlot] blanked. *)
Definition eraseSlot (r : FitResult) : FitResult :=
  mkFitResult (fr_shopId r) (fr_shopName r) (fr_capacity r)
    (fr_currentAssigned r) (fr_scenarioAssigned r) (fr_totalAssigned r)
    (fr_utilizationPercent r) (fr_status r) (fr_overload r) None.

(** The tables, as opposed to the id sequence. *)
Definition sameTables (d d' : Db) : Prop :=
  cars d' = cars d /\ shops d' = shops d
  /\ assignments d' = assignments d /\ scenarios d' = scenarios d.

(** A computation that leaves both history arrays as they are, whether it
    answers or throws. *)
Definition keepsHistory {A : Type} (m : M A) : Prop :=
  forall w, sameHistory w (fst (m w)).

(** The two arrays together never hold more than MAX_HISTORY actions. *)
Definition historyBounded (w : World) : Prop :=
  (List.length (undoStack w) + List.length (redoStack w) <= 50)%nat.

Definition keepsBound {A : Type} (m : M A) : Prop :=
  forall w, historyBounded w -> historyBounded (fst (m w)).

Section Sequences.

Variable newDate : string -> option Date.

(** Assign calls served one after the other, all of them answered
    successfully; [None] as soon as one throws. *)
Fixpoint assignAll (calls : list (Date * AssignRequest)) (w : World)
  : option (World * list AssignResponse) :=
  match calls with
  | [] => Some (w, [])
  | (now, req) :: rest =>
      match assign newDate now req w with
      | (w1, Ok r) =>
          match assignAll rest w1 with
          | Some (w2, rs) => Some (w2, r :: rs)
          | None => None
          end
      | (_, Throw _) => None
      end
  end.

(** A tuple of a plan is covered by the ledger when its month parses and
    the car already has an assignment for that month. *)
Definition coveredBy (d : Db) (sa : ScenarioAssignment) : Prop :=
  exists m, newDate (sa_month sa) = Some m
            /\ prisma.findByCarMonth (sa_carId sa) m d <> None.

End Sequences.

(** The action that a successful assign call logs. *)
Definition loggedCreate (now : Date) (r : AssignResponse) : HistoryAction :=
  mkAction create (res_data r) now.

Fixpoint loggedCreates (calls : list (Date * AssignRequest))
    (rs : list AssignResponse) : list HistoryAction :=
  match calls, rs with
  | (now, _) :: calls', r :: rs' => loggedCreate now r :: loggedCreates calls' rs'
  | _, _ => []
  end.

(* ===================================================================== *)
(** ** Further routes of the same files *)
(* ===================================================================== *)

(** *** routes/schedule.ts: GET /api/schedule/utilization *)

Record UtilizationRow : Type := mkUtilizationRow {
  ur_shopId : Z;
  ur_shopName : string;
  ur_capacity : Z;
  ur_assigned : Z;
  ur_utilizationPercent : JsNumber;
  ur_isOverCapacity : bool
}.

Record UtilizationAnswer : Type := mkUtilizationAnswer {
  ua_data : list UtilizationRow;
  ua_month : string
}.

(** One element of [shops.map(...)]; [shop.assignments] is the relation of
    the shop restricted by [where: { month: monthDate }]. *)
Definition utilizationRow (monthDate : Date) (d : Db) (shop : Shop)
  : UtilizationRow :=
  let assigned := prisma.countShopMonth (shop_id shop) monthDate d in
  mkUtilizationRow (shop_id shop) (shop_name shop) (shop_capacity shop) assigned
    (mulConst (divZ assigned (shop_capacity shop)) 100)
    (assigned >? shop_capacity shop).

(** *** routes/scenarios.ts: GET, PUT and DELETE of one scenario *)

Definition withScenarios (d : Db) (l : list Scenario) : Db :=
  mkDb (cars d) (shops d) (assignments d) l (assignmentSeq d).

(** The body of PUT: [name] when it is a string, and [data] when it is
    given and truthy, as the value of its [assignments] (an array or not). *)
Record ScenarioUpdate : Type := mkScenarioUpdate {
  su_name : option string;
  su_data : option (option (list ScenarioAssignment))
}.

(** data: { ...(name && { name }), ...(data && { data }) } *)
Definition updatedScenario (body : ScenarioUpdate) (sc : Scenario) : Scenario :=
  mkScenario (sc_id sc)
    (if truthy (su_name body)
     then match su_name body with Some n => n | None => sc_name sc end
     else sc_name sc)
    (match su_data body with Some x => x | None => sc_assignments sc end).

(** GET /api/scenarios/:id *)
Definition getScenario (scenarioId : Z) : M Scenario :=
  scenario <- readDb (prisma.findScenario scenarioId) ;;
  match scenario with
  | None => throw (HttpError "Scenario not found" 404)
  | Some sc => ret sc
  end.

(** PUT /api/scenarios/:id *)
Definition putScenario (scenarioId : Z) (body : ScenarioUpdate) : M Scenario :=
  scenario <- readDb (prisma.findScenario scenarioId) ;;
  match scenario with
  | None => throw (HttpError "Scenario not found" 404)
  | Some sc =>
      fun w =>
        (withDb w (withScenarios (db w)
           (map (fun x => if sc_id x =? scenarioId then updatedScenario body x else x)
                (scenarios (db w)))),
         Ok (updatedScenario body sc))
  end.

(** DELETE /api/scenarios/:id *)
Definition deleteScenario (scenarioId : Z) : M unit :=
  scenario <- readDb (prisma.findScenario scenarioId) ;;
  match scenario with
  | None => throw (HttpError "Scenario not found" 404)
  | Some _ =>
      fun w =>
        (withDb w (withScenarios (db w)
           (filter (fun x => negb (sc_id x =? scenarioId)) (scenarios (db w)))),
         Ok tt)
  end.

Section MoreRoutesWithDateParsing.

Variable newDate : string -> option Date.

(** GET /api/schedule/utilization; the query parameter is [None] when it
    is absent. *)
Definition utilization (month : option string) : M UtilizationAnswer :=
  match month with
  | None => throw (HttpError "month parameter is required" 400)
  | Some s =>
      if String.eqb s EmptyString
      then throw (HttpError "month parameter is required" 400)
      else
        match newDate s with
        | None => throw (PrismaError PValidation)
        | Some monthDate =>
            readDb (fun d =>
              mkUtilizationAnswer (map (utilizationRow monthDate d) (shops d))
                (toISOString monthDate))
        end
  end.

(** One request served by a route of schedule.ts, scenarios.ts or the
    forecast of analytics.ts, whether it answers or throws. *)
Inductive served : World -> World -> Prop :=
| served_assign now req w : served w (fst (assign newDate now req w))
| served_unassign now id w : served w (fst (unassign now id w))
| served_undo now w : served w (fst (undo now w))
| served_redo now w : served w (fst (redo now w))
| served_history w : served w (fst (history w))
| served_utilization month w : served w (fst (utilization month w))
| served_evaluate now body w : served w (fst (evaluate now body w))
| served_apply now id w : served w (fst (applyScenario newDate now id w))
| served_getScenario id w : served w (fst (getScenario id w))
| served_putScenario id body w : served w (fst (putScenario id body w))
| served_deleteScenario id w : served w (fst (deleteScenario id w))
| served_forecast now q w : served w (fst (forecast now q w)).

End MoreRoutesWithDateParsing.

(** *** Notions for the statements about these routes *)

(** The key of the unique index "Assignment_carId_month_key". *)
Definition carMonth (a : Assignment) : Z * Date := (a_carId a, a_month a).

(** The constraints of the migration on "Assignment", together with what
    SERIAL keys guarantee: primary key, unique (carId, month), and the two
    foreign keys. *)
Definition ledgerInv (d : Db) : Prop :=
  db_wf d
  /\ NoDup (map a_id (assignments d))
  /\ NoDup (map carMonth (assignments d))
  /\ (forall a, In a (assignments d) ->
        prisma.findCar (a_carId a) d <> None
        /\ prisma.findShop (a_shopId a) d <> None).

(** The same constraints as a test that can be run on a given store. *)
Fixpoint distinctBy {A : Type} (eqb : A -> A -> bool) (l : list A) : bool :=
  match l with
  | [] => true
  | x :: rest => negb (existsb (eqb x) rest) && distinctBy eqb rest
  end.

Definition carMonth_eqb (x y : Z * Date) : bool :=
  (fst x =? fst y) && date_eqb (snd x) (snd y).

Definition isSome {A : Type} (o : option A) : bool :=
  match o with Some _ => true | None => false end.

Definition ledgerInvb (d : Db) : bool :=
  forallb (fun a => a_id a <=? assignmentSeq d) (assignments d)
  && forallb (fun c => 0 <? car_id c) (cars d)
  && forallb (fun s => 0 <? shop_id s) (shops d)
  && distinctBy Z.eqb (map a_id (assignments d))
  && distinctBy carMonth_eqb (map carMonth (assignments d))
  && forallb (fun a => isSome (prisma.findCar (a_carId a) d)
                       && isSome (prisma.findShop (a_shopId a) d))
             (assignments d).

(** A computation that keeps the constraints and never moves the id
    sequence backwards. *)
Definition keepsLedger {A : Type} (m : M A) : Prop :=
  forall w, ledgerInv (db w) ->
    ledgerInv (db (fst (m w)))
    /\ assignmentSeq (db w) <= assignmentSeq (db (fst (m w))).

(** The calendar month [k] months after that of [d], same day and time. *)
Definition addMonths (d : Date) (k : Z) : Date :=
  mkDate ((year d * 12 + month0 d + k) / 12) ((year d * 12 + month0 d + k) mod 12)
         (day d) (msOfDay d).

(** Sums over the entries of a [monthlyData]. *)
Definition sumCurrent (m : MonthlyData) : Z :=
  fold_right (fun e acc => current (snd e) + acc) 0 m.

Definition sumScenario (m : MonthlyData) : Z :=
  fold_right (fun e acc => scenario (snd e) + acc) 0 m.

Definition totalOf (c : Counts) : Z := current c + scenario c.

Definition nonnegCounts (m : MonthlyData) : Prop :=
  forall k c, In (k, c) m -> 0 <= current c /\ 0 <= scenario c.

(** Both history arrays hold only actions that satisfy [P]. *)
Definition historyOnly (P : HistoryAction -> Prop) (w : World) : Prop :=
  Forall P (undoStack w) /\ Forall P (redoStack w).

Definition keepsOnly (P : HistoryAction -> Prop) {A : Type} (m : M A) : Prop :=
  forall w, historyOnly P w -> historyOnly P (fst (m w)).

Definition notUpdate (action : HistoryAction) : Prop :=
  act_type action <> update.

(** A proposed assignment with its car replaced. *)
Definition withCar (f : ScenarioAssignment -> Z) (a : ScenarioAssignment)
  : ScenarioAssignment :=
  mkScenarioAssignment (f a) (sa_shopId a) (sa_month a).

(* ===================================================================== *)
(** ** Basic facts about the store operations *)
(* ===================================================================== *)

Lemma date_eqb_refl (d : Date) : date_eqb d d = true.
Proof.
  unfold date_eqb. now rewrite !Z.eqb_refl.
Qed.

Lemma date_eqb_eq (a b : Date) : date_eqb a b = true <-> a = b.
Proof.
  split.
  - unfold date_eqb. destruct a, b; simpl.
    rewrite !andb_true_iff, !Z.eqb_eq. intros [[[-> ->] ->] ->]. reflexivity.
  - intros ->. apply date_eqb_refl.
Qed.

Lemma pop_snoc {A} (l : list A) (x : A) : pop (l ++ [x]) = Some (x, l).
Proof.
  induction l as [|y l IH]; simpl; [reflexivity|]. now rewrite IH.
Qed.

Lemma pop_nil_iff {A} (l : list A) : pop l = None <-> l = [].
Proof.
  destruct l as [|x l]; simpl; [tauto|].
  destruct (pop l) as [[y r]|]; split; discriminate.
Qed.

Lemma pop_some {A} (l r : list A) (x : A) : pop l = Some (x, r) -> l = r ++ [x].
Proof.
  revert r x. induction l as [|y l IH]; simpl; intros r x H; [discriminate|].
  destruct (pop l) as [[z r']|] eqn:E.
  - inversion H; subst. simpl. f_equal. now apply IH.
  - inversion H; subst. apply pop_nil_iff in E. now subst.
Qed.

Lemma find_app_some {A} (f : A -> bool) (l l' : list A) (x : A) :
  find f l = Some x -> find f (l ++ l') = Some x.
Proof.
  induction l as [|y l IH]; simpl; [discriminate|].
  destruct (f y); auto.
Qed.

Lemma find_app_none {A} (f : A -> bool) (l l' : list A) :
  find f l = None -> find f (l ++ l') = find f l'.
Proof.
  induction l as [|y l IH]; simpl; [reflexivity|].
  destruct (f y); [discriminate|auto].
Qed.


(* ===================================================================== *)
(** ** Scenario evaluation *)
(* ===================================================================== *)

Section Tally.

Variable P : string.

Lemma addCurrent_same (c s : Z) (a : Assignment) :
  substring07 (toISOString (a_month a)) = P ->
  addCurrent [(P, mkCounts c s)] a = [(P, mkCounts (c + 1) s)].
Proof.
  intros H. unfold addCurrent, getOrZero. rewrite H. simpl.
  now rewrite String.eqb_refl.
Qed.

Lemma addScenario_same (c s : Z) (a : ScenarioAssignment) :
  substring07 (sa_month a) = P ->
  addScenario [(P, mkCounts c s)] a = [(P, mkCounts c (s + 1))].
Proof.
  intros H. unfold addScenario, getOrZero. rewrite H. simpl.
  now rewrite String.eqb_refl.
Qed.

Lemma tally_current (l : list Assignment) : forall c s,
  (forall a, In a l -> substring07 (toISOString (a_month a)) = P) ->
  fold_left addCurrent l [(P, mkCounts c s)]
  = [(P, mkCounts (c + Z.of_nat (List.length l)) s)].
Proof.
  induction l as [|a l IH]; intros c s H.
  - simpl. now rewrite Z.add_0_r.
  - cbn [fold_left]. rewrite addCurrent_same by (apply H; now left).
    rewrite IH by (intros; apply H; now right).
    do 3 f_equal. cbn [List.length]. lia.
Qed.

Lemma tally_scenario (l : list ScenarioAssignment) : forall c s,
  (forall a, In a l -> substring07 (sa_month a) = P) ->
  fold_left addScenario l [(P, mkCounts c s)]
  = [(P, mkCounts c (s + Z.of_nat (List.length l)))].
Proof.
  induction l as [|a l IH]; intros c s H.
  - simpl. now rewrite Z.add_0_r.
  - cbn [fold_left]. rewrite addScenario_same by (apply H; now left).
    rewrite IH by (intros; apply H; now right).
    do 3 f_equal. cbn [List.length]. lia.
Qed.

(** When every committed and every proposed assignment of a shop falls in
    the one month [P], and there is a committed one, its [monthlyData] has
    the single entry for [P]. *)
Lemma monthlyData_single_month (shop : Shop) (cur : list Assignment)
    (prop : list ScenarioAssignment) :
  currentOf shop cur <> [] ->
  (forall a, In a (currentOf shop cur) ->
     substring07 (toISOString (a_month a)) = P) ->
  (forall a, In a (scenarioOf shop prop) -> substring07 (sa_month a) = P) ->
  monthlyDataOf shop cur prop
  = [(P, mkCounts (Z.of_nat (List.length (currentOf shop cur)))
                  (Z.of_nat (List.length (scenarioOf shop prop))))].
Proof.
  intros Hne Hc Hs. unfold monthlyDataOf.
  destruct (currentOf shop cur) as [|a l] eqn:E; [congruence|].
  cbn [fold_left].
  assert (Ha : addCurrent [] a = [(P, mkCounts 1 0)]).
  { unfold addCurrent, getOrZero. rewrite (Hc a) by now left. reflexivity. }
  rewrite Ha, tally_current by (intros; apply Hc; now right).
  rewrite tally_scenario by assumption.
  do 3 f_equal. cbn [List.length]. lia.
Qed.

End Tally.

(** C1 (as amended).  A shop of capacity 50 with 40 committed assignments
    in period P, evaluated with 10 more proposed in the same P, is reported
    with maxTotal 50, utilizationPercent 100, no overload, and status
    yellow: it is not red, because red needs maxTotal > capacity, and it is
    not green, because 100 >= 80. *)
Theorem evaluate_full_capacity_is_yellow
    (now : Date) (cur : list Assignment) (prop : list ScenarioAssignment)
    (shop : Shop) (P : string) :
  shop_capacity shop = 50 ->
  (forall a, In a (currentOf shop cur) ->
     substring07 (toISOString (a_month a)) = P) ->
  List.length (currentOf shop cur) = 40%nat ->
  (forall a, In a (scenarioOf shop prop) -> substring07 (sa_month a) = P) ->
  List.length (scenarioOf shop prop) = 10%nat ->
  fr_totalAssigned (fitOf now cur prop shop) = 50
  /\ fr_utilizationPercent (fitOf now cur prop shop) = Finite 100%Q
  /\ fr_overload (fitOf now cur prop shop) = 0
  /\ fr_status (fitOf now cur prop shop) = yellow.
Proof.
  intros Hcap Hc Hlc Hs Hls.
  assert (Hne : currentOf shop cur <> []).
  { intros E. rewrite E in Hlc. discriminate. }
  unfold fitOf.
  rewrite (monthlyData_single_month P shop cur prop Hne Hc Hs).
  rewrite Hlc, Hls, Hcap. vm_compute. repeat split; reflexivity.
Qed.

Lemma forallb_In {A} (f : A -> bool) (l : list A) :
  forallb f l = true -> forall x, In x l -> f x = true.
Proof.
  intros H x Hx. rewrite forallb_forall in H. now apply H.
Qed.

Lemma evaluate_full_capacity_witness :
  fr_totalAssigned
    (fitOf (Examples.noon 2024 11 20) (assignments Examples.ledger40)
       (Examples.proposedFor 40 10 1 "2024-12-01") Examples.shop50) = 50
  /\ fr_utilizationPercent
    (fitOf (Examples.noon 2024 11 20) (assignments Examples.ledger40)
       (Examples.proposedFor 40 10 1 "2024-12-01") Examples.shop50) = Finite 100%Q
  /\ fr_overload
    (fitOf (Examples.noon 2024 11 20) (assignments Examples.ledger40)
       (Examples.proposedFor 40 10 1 "2024-12-01") Examples.shop50) = 0
  /\ fr_status
    (fitOf (Examples.noon 2024 11 20) (assignments Examples.ledger40)
       (Examples.proposedFor 40 10 1 "2024-12-01") Examples.shop50) = yellow.
Proof.
  apply (evaluate_full_capacity_is_yellow _ _ _ _ "2024-12").
  - reflexivity.
  - intros a Ha. apply String.eqb_eq. revert a Ha. apply forallb_In.
    vm_compute. reflexivity.
  - vm_compute. reflexivity.
  - intros a Ha. apply String.eqb_eq. revert a Ha. apply forallb_In.
    vm_compute. reflexivity.
  - vm_compute. reflexivity.
Defined.

(** C1 (as stated) fails: with capacity 50, 40 committed and 10 proposed in
    the same month, the route does report maxTotal 50 and 100 percent, but
    the status it reports is not green. *)
Lemma evaluate_full_capacity_not_green :
  exists r,
    snd (evaluate (Examples.noon 2024 11 20)
           (Some (Examples.proposedFor 40 10 1 "2024-12-01"))
           (mkWorld Examples.ledger40 [] []))
    = Ok r
    /\ ~ (forall f, In f (ev_shops r) ->
            fr_totalAssigned f = 50
            /\ fr_utilizationPercent f = Finite 100%Q
            /\ fr_status f = green).
Proof.
  eexists. split; [reflexivity|].
  intros H.
  assert (Hin : In (fitOf (Examples.noon 2024 11 20) (assignments Examples.ledger40)
                      (Examples.proposedFor 40 10 1 "2024-12-01") Examples.shop50)
                   (ev_shops (evaluation (Examples.noon 2024 11 20) Examples.ledger40
                      (Examples.proposedFor 40 10 1 "2024-12-01")))).
  { left. reflexivity. }
  destruct (H _ Hin) as (_ & _ & Hs).
  vm_compute in Hs. discriminate Hs.
Qed.

Lemma divZ_zero (b : Z) : 0 < b -> divZ 0 b = Finite 0%Q.
Proof.
  intros Hb. unfold divZ.
  destruct (b =? 0) eqn:E; [apply Z.eqb_eq in E; lia|].
  reflexivity.
Qed.

Lemma countStatus_eraseSlot (st : FitStatus) (l : list FitResult) :
  countStatus st (map eraseSlot l) = countStatus st l.
Proof.
  unfold countStatus. f_equal.
  induction l as [|r l IH]; simpl; [reflexivity|].
  destruct (FitStatus_eqb (fr_status r) st); simpl; now rewrite IH.
Qed.

Lemma totalOverload_eraseSlot (l : list FitResult) : forall acc,
  fold_left (fun sum r => sum + fr_overload r) (map eraseSlot l) acc
  = fold_left (fun sum r => sum + fr_overload r) l acc.
Proof.
  induction l as [|r l IH]; intros acc; simpl; [reflexivity|]. apply IH.
Qed.

Lemma eraseSlot_fitOf (now1 now2 : Date) cur prop shop :
  eraseSlot (fitOf now1 cur prop shop) = eraseSlot (fitOf now2 cur prop shop).
Proof. reflexivity. Qed.

Lemma eraseSlot_fits (now1 now2 : Date) cur prop (l : list Shop) :
  map eraseSlot (map (fitOf now1 cur prop) l)
  = map eraseSlot (map (fitOf now2 cur prop) l).
Proof.
  rewrite !map_map. apply map_ext. intros shop. apply eraseSlot_fitOf.
Qed.

(** The clock enters a fit result only through the fallback slot. *)
Lemma fitOf_same_fallback (now1 now2 : Date) cur prop shop :
  nextMonthKey now1 = nextMonthKey now2 ->
  fitOf now1 cur prop shop = fitOf now2 cur prop shop.
Proof.
  intros H. unfold fitOf. now rewrite H.
Qed.




(** A shop that no committed and no proposed assignment names. *)
Lemma fitOf_untouched (now : Date) cur prop (shop : Shop) :
  0 < shop_capacity shop ->
  currentOf shop cur = [] ->
  scenarioOf shop prop = [] ->
  fr_totalAssigned (fitOf now cur prop shop) = 0
  /\ fr_overload (fitOf now cur prop shop) = 0
  /\ fr_utilizationPercent (fitOf now cur prop shop) = Finite 0%Q
  /\ fr_status (fitOf now cur prop shop) = green.
Proof.
  intros Hcap Hc Hs. unfold fitOf, monthlyDataOf. rewrite Hc, Hs.
  cbn [fold_left scan maxTotal maxOverload earliestSlot
       fr_totalAssigned fr_overload fr_utilizationPercent fr_status].
  rewrite (divZ_zero _ Hcap). unfold statusOfFit.
  destruct (0 >? shop_capacity shop) eqn:E.
  - apply Z.gtb_lt in E. lia.
  - repeat split; reflexivity.
Qed.



(* ===================================================================== *)
(** ** What the handlers do to the history arrays *)
(* ===================================================================== *)

Lemma sameHistory_refl (w : World) : sameHistory w w.
Proof. split; reflexivity. Qed.

Lemma sameHistory_trans (a b c : World) :
  sameHistory a b -> sameHistory b c -> sameHistory a c.
Proof. intros [H1 H2] [H3 H4]. split; congruence. Qed.

Lemma keeps_ret {A} (a : A) : keepsHistory (ret a).
Proof. intros w. apply sameHistory_refl. Qed.

Lemma keeps_throw {A} (e : Error) : keepsHistory (@throw A e).
Proof. intros w. apply sameHistory_refl. Qed.

Lemma keeps_readDb {A} (f : Db -> A) : keepsHistory (readDb f).
Proof. intros w. apply sameHistory_refl. Qed.

Lemma keeps_bind {A B} (m : M A) (k : A -> M B) :
  keepsHistory m -> (forall a, keepsHistory (k a)) -> keepsHistory (bind m k).
Proof.
  intros Hm Hk w. unfold bind. specialize (Hm w).
  destruct (m w) as [w1 [a|e]]; simpl in *.
  - eapply sameHistory_trans; [exact Hm|]. apply Hk.
  - exact Hm.
Qed.

Lemma keeps_createAssignment now carId shopId month :
  keepsHistory (prisma.createAssignment now carId shopId month).
Proof.
  intros w. unfold prisma.createAssignment.
  destruct (prisma.findAssignment _ _); [(split; reflexivity)|].
  destruct (prisma.findByCarMonth _ _ _); [(split; reflexivity)|].
  destruct (prisma.findCar _ _); [|(split; reflexivity)].
  destruct (prisma.findShop _ _); (split; reflexivity).
Qed.

Lemma keeps_deleteAssignment id : keepsHistory (prisma.deleteAssignment id).
Proof.
  intros w. unfold prisma.deleteAssignment.
  destruct (prisma.findAssignment _ _); (split; reflexivity).
Qed.

Lemma keeps_updateCarStatus now id status :
  keepsHistory (prisma.updateCarStatus now id status).
Proof.
  intros w. unfold prisma.updateCarStatus.
  destruct (prisma.findCar _ _); (split; reflexivity).
Qed.

Lemma keeps_transaction {A} (body : M A) :
  keepsHistory body -> keepsHistory (prisma.transaction body).
Proof.
  intros H w. unfold prisma.transaction. specialize (H w).
  destruct (body w) as [w1 [a|e]]; exact H.
Qed.

Create HintDb history.

#[local] Hint Resolve keeps_ret keeps_throw keeps_readDb keeps_createAssignment
  keeps_deleteAssignment keeps_updateCarStatus : history.

Ltac keeps_tac :=
  repeat first
    [ apply keeps_bind; [|intros ?]
    | apply keeps_transaction
    | solve [auto with history]
    | match goal with
      | |- keepsHistory (match ?x with _ => _ end) => destruct x
      | |- keepsHistory (if ?x then _ else _) => destruct x
      end ].

Lemma keeps_deleteAndRestatus now a : keepsHistory (deleteAndRestatus now a).
Proof. unfold deleteAndRestatus. keeps_tac. Qed.

Lemma keeps_recreateAndRestatus now a : keepsHistory (recreateAndRestatus now a).
Proof. unfold recreateAndRestatus. keeps_tac. Qed.

#[local] Hint Resolve keeps_deleteAndRestatus keeps_recreateAndRestatus : history.

Lemma keeps_applyLoop newDate now l : forall created,
  keepsHistory (applyLoop newDate now l created).
Proof.
  induction l as [|sa l IH]; intros created; simpl.
  - apply keeps_ret.
  - destruct (newDate (sa_month sa)); [|apply keeps_throw].
    apply keeps_bind; [apply keeps_readDb|]. intros [existing|]; [apply IH|].
    apply keeps_bind; [apply keeps_createAssignment|]. intros a.
    apply keeps_bind; [apply keeps_updateCarStatus|]. intros _. apply IH.
Qed.

Lemma keeps_applyScenario newDate now id :
  keepsHistory (applyScenario newDate now id).
Proof.
  unfold applyScenario. apply keeps_bind; [apply keeps_readDb|].
  intros [sc|]; [|apply keeps_throw].
  destruct (sc_assignments sc); [|apply keeps_throw].
  apply keeps_transaction, keeps_applyLoop.
Qed.

Lemma keeps_evaluate now body : keepsHistory (evaluate now body).
Proof. unfold evaluate. destruct body; auto with history. Qed.

Lemma keeps_forecast now q : keepsHistory (forecast now q).
Proof. apply keeps_readDb. Qed.

(** *** The bound on the two arrays *)

Lemma bounded_sameHistory (w w' : World) :
  sameHistory w w' -> historyBounded w -> historyBounded w'.
Proof. intros [H1 H2]. unfold historyBounded. now rewrite H1, H2. Qed.

Lemma keepsBound_of_keeps {A} (m : M A) : keepsHistory m -> keepsBound m.
Proof. intros H w Hw. exact (bounded_sameHistory _ _ (H w) Hw). Qed.

Lemma keepsBound_bind {A B} (m : M A) (k : A -> M B) :
  keepsBound m -> (forall a, keepsBound (k a)) -> keepsBound (bind m k).
Proof.
  intros Hm Hk w Hw. unfold bind. specialize (Hm w Hw).
  destruct (m w) as [w1 [a|e]]; simpl in *; [now apply Hk|exact Hm].
Qed.

Lemma pushCapped_length (l : list HistoryAction) (a : HistoryAction) :
  (List.length l <= 50)%nat -> (List.length (pushCapped l a) <= 50)%nat.
Proof.
  intros H. unfold pushCapped, MAX_HISTORY, shift.
  destruct (Z.of_nat (List.length (l ++ [a])) >? 50) eqn:E.
  - destruct l as [|x l]; simpl in *; [lia|]. rewrite length_app. simpl. lia.
  - rewrite Z.gtb_ltb in E. apply Z.ltb_ge in E. lia.
Qed.

Lemma keepsBound_addToHistory (a : HistoryAction) : keepsBound (addToHistory a).
Proof.
  intros w Hw. unfold historyBounded in *. simpl.
  pose proof (pushCapped_length (undoStack w) a). lia.
Qed.

Ltac bound_tac :=
  repeat first
    [ apply keepsBound_bind; [|intros ?]
    | apply keepsBound_addToHistory
    | solve [apply keepsBound_of_keeps; auto with history]
    | match goal with
      | |- keepsBound (match ?x with _ => _ end) => destruct x
      | |- keepsBound (if ?x then _ else _) => destruct x
      end ].

Lemma keepsBound_assign newDate now req : keepsBound (assign newDate now req).
Proof. unfold assign. bound_tac. Qed.

Lemma keepsBound_unassign now id : keepsBound (unassign now id).
Proof. unfold unassign. bound_tac. Qed.

Lemma keeps_reverse (now : Date) (action : HistoryAction) (undoing : bool) :
  keepsHistory
    (match act_type action with
     | create => if undoing then deleteAndRestatus now (act_assignment action)
                 else recreateAndRestatus now (act_assignment action)
     | delete => if undoing then recreateAndRestatus now (act_assignment action)
                 else deleteAndRestatus now (act_assignment action)
     | update => ret tt
     end ;;; fun w2 => (w2, Ok (stackSizes w2))).
Proof.
  apply keeps_bind.
  - destruct (act_type action), undoing; auto with history.
  - intros _ w. apply sameHistory_refl.
Qed.

Lemma keepsBound_undo now : keepsBound (undo now).
Proof.
  intros w Hw. unfold undo.
  destruct (pop (undoStack w)) as [[action rest]|] eqn:E; [|exact Hw].
  apply pop_some in E.
  eapply bounded_sameHistory; [apply (keeps_reverse now action true)|].
  unfold historyBounded in *. simpl. rewrite E in Hw.
  rewrite length_app in *. simpl in *. lia.
Qed.

Lemma keepsBound_redo now : keepsBound (redo now).
Proof.
  intros w Hw. unfold redo.
  destruct (pop (redoStack w)) as [[action rest]|] eqn:E; [|exact Hw].
  apply pop_some in E.
  eapply bounded_sameHistory; [apply (keeps_reverse now action false)|].
  unfold historyBounded in *. simpl. rewrite E in Hw.
  rewrite length_app in *. simpl in *. lia.
Qed.

Lemma step_bounded newDate (w w' : World) :
  step newDate w w' -> historyBounded w -> historyBounded w'.
Proof.
  intros S Hw. destruct S.
  - now apply keepsBound_assign.
  - now apply keepsBound_unassign.
  - now apply keepsBound_undo.
  - now apply keepsBound_redo.
  - exact Hw.
  - now apply (keepsBound_of_keeps _ (keeps_evaluate now body)).
  - now apply (keepsBound_of_keeps _ (keeps_applyScenario newDate now id)).
  - now apply (keepsBound_of_keeps _ (keeps_forecast now q)).
  - now apply (bounded_sameHistory w).
Qed.

Lemma reachable_bounded newDate (w : World) :
  reachable newDate w -> historyBounded w.
Proof.
  induction 1 as [d|w w' _ IH S].
  - unfold historyBounded. simpl. lia.
  - exact (step_bounded newDate w w' S IH).
Qed.

(* ===================================================================== *)
(** ** assign *)
(* ===================================================================== *)

Lemma find_update_car (id : Z) (c' : Car) (l : list Car) :
  car_id c' = id ->
  find (fun c => car_id c =? id) l <> None ->
  find (fun c => car_id c =? id)
       (map (fun x => if car_id x =? id then c' else x) l) = Some c'.
Proof.
  intros Hid. induction l as [|x l IH]; simpl; [congruence|].
  destruct (car_id x =? id) eqn:E.
  - intros _. simpl. rewrite Hid, Z.eqb_refl. reflexivity.
  - intros H. simpl. rewrite E. now apply IH.
Qed.

Lemma countShopMonth_snoc (d : Db) (a : Assignment) :
  prisma.countShopMonth (a_shopId a) (a_month a)
    (withAssignments d (assignments d ++ [a]))
  = prisma.countShopMonth (a_shopId a) (a_month a) d + 1.
Proof.
  unfold prisma.countShopMonth. simpl.
  rewrite filter_app, length_app. simpl.
  rewrite Z.eqb_refl, date_eqb_refl. simpl. lia.
Qed.

Section AssignFacts.

Variable newDate : string -> option Date.

(** What a successful assign call has done. *)
Lemma assign_ok_inv now req w w' r :
  assign newDate now req w = (w', Ok r) ->
  exists car shop monthDate,
    prisma.findCar (req_carId req) (db w) = Some car
    /\ prisma.findShop (req_shopId req) (db w) = Some shop
    /\ newDate (req_month req) = Some monthDate
    /\ prisma.findByCarMonth (req_carId req) monthDate (db w) = None
    /\ res_data r = mkAssignment (assignmentSeq (db w) + 1) (req_carId req)
                      (req_shopId req) monthDate now now
    /\ res_warning r =
         (if prisma.countShopMonth (req_shopId req) monthDate (db w)
               >=? shop_capacity shop
          then Some (overCapacityWarning shop) else None)
    /\ db w' =
         withCars
           (withAssignments (withSeq (db w) (assignmentSeq (db w) + 1))
              (assignments (db w) ++ [res_data r]))
           (map (fun x => if car_id x =? req_carId req
                          then mkCar (req_carId req) "scheduled" now else x)
                (cars (db w)))
    /\ undoStack w' = pushCapped (undoStack w) (mkAction create (res_data r) now)
    /\ redoStack w' = [].
Proof.
  unfold assign.
  destruct ((req_carId req =? 0) || (req_shopId req =? 0)
            || String.eqb (req_month req) EmptyString); [discriminate|].
  unfold bind at 1. unfold readDb at 1.
  destruct (prisma.findCar (req_carId req) (db w)) as [car|] eqn:Ecar;
    [|discriminate].
  unfold bind at 1. unfold readDb at 1.
  destruct (prisma.findShop (req_shopId req) (db w)) as [shop|] eqn:Eshop;
    [|discriminate].
  destruct (newDate (req_month req)) as [monthDate|] eqn:Edate; [|discriminate].
  unfold bind at 1. unfold readDb at 1.
  destruct (prisma.findByCarMonth (req_carId req) monthDate (db w)) eqn:Eex;
    [discriminate|].
  unfold bind at 1. unfold readDb at 1.
  unfold bind at 1. unfold prisma.createAssignment.
  destruct (prisma.findAssignment _ _); [discriminate|].
  destruct (prisma.findByCarMonth _ _ (withSeq _ _)); [discriminate|].
  destruct (prisma.findCar _ (withSeq _ _)) eqn:Ecar'; [|discriminate].
  destruct (prisma.findShop _ (withSeq _ _)); [|discriminate].
  unfold bind at 1. unfold prisma.updateCarStatus.
  destruct (prisma.findCar _ (db (withDb _ _))); [|discriminate].
  unfold bind, addToHistory, ret. simpl.
  intros H. inversion H; subst; clear H. simpl.
  exists car, shop, monthDate. repeat split; try assumption; reflexivity.
Qed.

(** The call goes through whenever its preconditions hold. *)
Lemma assign_succeeds now req w car shop monthDate :
  db_wf (db w) ->
  prisma.findCar (req_carId req) (db w) = Some car ->
  prisma.findShop (req_shopId req) (db w) = Some shop ->
  req_month req <> EmptyString ->
  newDate (req_month req) = Some monthDate ->
  prisma.findByCarMonth (req_carId req) monthDate (db w) = None ->
  exists w' r, assign newDate now req w = (w', Ok r).
Proof.
  intros (Hseq & Hcars & Hshops) Ecar Eshop Hmonth Edate Eex.
  assert (Hc : (req_carId req =? 0) = false).
  { apply Z.eqb_neq. unfold prisma.findCar in Ecar.
    apply find_some in Ecar. destruct Ecar as [Hin E].
    apply Z.eqb_eq in E. specialize (Hcars _ Hin). lia. }
  assert (Hs : (req_shopId req =? 0) = false).
  { apply Z.eqb_neq. unfold prisma.findShop in Eshop.
    apply find_some in Eshop. destruct Eshop as [Hin E].
    apply Z.eqb_eq in E. specialize (Hshops _ Hin). lia. }
  assert (Hm : String.eqb (req_month req) EmptyString = false).
  { now apply String.eqb_neq. }
  assert (Hfresh : prisma.findAssignment (assignmentSeq (db w) + 1)
                     (withSeq (db w) (assignmentSeq (db w) + 1)) = None).
  { unfold prisma.findAssignment. simpl.
    destruct (find _ (assignments (db w))) as [a|] eqn:E; [|reflexivity].
    apply find_some in E. destruct E as [Hin E].
    apply Z.eqb_eq in E. specialize (Hseq _ Hin). lia. }
  unfold assign. rewrite Hc, Hs, Hm. cbn [orb].
  unfold bind at 1. unfold readDb at 1. rewrite Ecar.
  unfold bind at 1. unfold readDb at 1. rewrite Eshop, Edate.
  unfold bind at 1. unfold readDb at 1. rewrite Eex.
  unfold bind at 1. unfold readDb at 1.
  unfold bind at 1. unfold prisma.createAssignment. rewrite Hfresh.
  change (prisma.findByCarMonth (req_carId req) monthDate
            (withSeq (db w) (assignmentSeq (db w) + 1)))
    with (prisma.findByCarMonth (req_carId req) monthDate (db w)).
  rewrite Eex.
  change (prisma.findCar (req_carId req) (withSeq (db w) (assignmentSeq (db w) + 1)))
    with (prisma.findCar (req_carId req) (db w)).
  change (prisma.findShop (req_shopId req) (withSeq (db w) (assignmentSeq (db w) + 1)))
    with (prisma.findShop (req_shopId req) (db w)).
  rewrite Ecar, Eshop.
  unfold bind at 1. unfold prisma.updateCarStatus.
  match goal with
  | |- context [prisma.findCar ?i (db (withDb ?x ?y))] =>
      change (prisma.findCar i (db (withDb x y))) with (prisma.findCar i (db w))
  end.
  rewrite Ecar. unfold bind, addToHistory, ret. simpl.
  eexists. eexists. reflexivity.
Qed.


End AssignFacts.

(* ===================================================================== *)
(** ** The redo array after a new mutation *)
(* ===================================================================== *)

Lemma redo_empty now (w : World) :
  redoStack w = [] ->
  redo now w = (w, Throw (HttpError "Nothing to redo" 400)).
Proof. intros H. unfold redo. rewrite H. reflexivity. Qed.

Lemma unassign_ok_redo now id w w' u :
  unassign now id w = (w', Ok u) -> redoStack w' = [].
Proof.
  unfold unassign. unfold bind at 1. unfold readDb at 1.
  destruct (prisma.findAssignment id (db w)) as [a|]; [|discriminate].
  unfold bind at 1. unfold addToHistory at 1.
  intros H.
  pose proof (keeps_deleteAndRestatus now a
                (mkWorld (db w) (pushCapped (undoStack w) (mkAction delete a now)) []))
    as [_ K].
  rewrite H in K. exact K.
Qed.

Lemma undo_redoStack now (w : World) :
  redoStack (fst (undo now w))
  = match pop (undoStack w) with
    | Some (action, _) => redoStack w ++ [action]
    | None => redoStack w
    end.
Proof.
  unfold undo. destruct (pop (undoStack w)) as [[action rest]|]; [|reflexivity].
  destruct (keeps_reverse now action true
              (mkWorld (db w) rest (redoStack w ++ [action]))) as [_ K].
  exact K.
Qed.


(* ===================================================================== *)
(** ** The cap on the undo array *)
(* ===================================================================== *)

Lemma lastn_all {A} (n : nat) (l : list A) :
  (List.length l <= n)%nat -> lastn n l = l.
Proof.
  intros H. unfold lastn.
  replace (List.length l - n)%nat with 0%nat by lia. reflexivity.
Qed.

Lemma lastn_length {A} (n : nat) (l : list A) :
  List.length (lastn n l) = Nat.min n (List.length l).
Proof. unfold lastn. rewrite length_skipn. lia. Qed.

Lemma lastn_app_lastn {A} (n : nat) (a b : list A) :
  lastn n (lastn n a ++ b) = lastn n (a ++ b).
Proof.
  destruct (Nat.le_gt_cases (List.length a) n) as [H|H].
  - now rewrite (lastn_all n a H).
  - unfold lastn at 1 3. rewrite !length_app, lastn_length.
    replace (Nat.min n (List.length a)) with n by lia.
    replace (n + List.length b - n)%nat with (List.length b) by lia.
    replace (List.length a + List.length b - n)%nat
      with (List.length b + (List.length a - n))%nat by lia.
    rewrite <- skipn_skipn. f_equal.
    unfold lastn. rewrite skipn_app.
    replace (List.length a - n - List.length a)%nat with 0%nat by lia.
    reflexivity.
Qed.

Lemma pushCapped_lastn (l : list HistoryAction) (a : HistoryAction) :
  (List.length l <= 50)%nat -> pushCapped l a = lastn 50 (l ++ [a]).
Proof.
  intros H. unfold pushCapped, MAX_HISTORY, shift, lastn.
  rewrite length_app. simpl.
  destruct (Z.of_nat (List.length l + 1) >? 50) eqn:E.
  - apply Z.gtb_lt in E.
    replace (List.length l + 1 - 50)%nat with 1%nat by lia. reflexivity.
  - rewrite Z.gtb_ltb in E. apply Z.ltb_ge in E.
    replace (List.length l + 1 - 50)%nat with 0%nat by lia. reflexivity.
Qed.

Lemma fold_pushCapped (xs : list HistoryAction) : forall l,
  (List.length l <= 50)%nat ->
  fold_left pushCapped xs l = lastn 50 (l ++ xs).
Proof.
  induction xs as [|x xs IH]; intros l H; simpl.
  - rewrite app_nil_r. symmetry. now apply lastn_all.
  - rewrite IH by now apply pushCapped_length.
    rewrite pushCapped_lastn by exact H.
    rewrite lastn_app_lastn, <- app_assoc. reflexivity.
Qed.

Section AssignSequences.

Variable newDate : string -> option Date.

(** The arrays and the sequence after a run of successful assign calls. *)
Lemma assignAll_effect calls : forall w w' rs,
  assignAll newDate calls w = Some (w', rs) ->
  undoStack w' = fold_left pushCapped (loggedCreates calls rs) (undoStack w)
  /\ List.length rs = List.length calls
  /\ assignmentSeq (db w) <= assignmentSeq (db w')
  /\ (forall act, In act (loggedCreates calls rs) ->
        assignmentSeq (db w) < a_id (act_assignment act)).
Proof.
  induction calls as [|[now req] calls IH]; intros w w' rs H; simpl in H.
  - inversion H; subst. simpl. repeat split; [lia|contradiction].
  - destruct (assign newDate now req w) as [w1 [r|e]] eqn:E; [|discriminate].
    destruct (assignAll newDate calls w1) as [[w2 rs']|] eqn:E'; [|discriminate].
    inversion H; subst; clear H.
    destruct (IH _ _ _ E') as (Hu & Hl & Hs & Hids).
    destruct (assign_ok_inv newDate _ _ _ _ _ E)
      as (car & shop & md & _ & _ & _ & _ & Hdata & _ & Hdb & Hundo & _).
    assert (Hseq : assignmentSeq (db w1) = assignmentSeq (db w) + 1).
    { rewrite Hdb. reflexivity. }
    simpl. repeat split.
    + rewrite Hu, Hundo. reflexivity.
    + now rewrite Hl.
    + lia.
    + intros act [<-|Hin].
      * simpl. rewrite Hdata. simpl. lia.
      * specialize (Hids _ Hin). lia.
Qed.

End AssignSequences.

(** C7.  In every reachable state the undo array holds at most 50 actions;
    and after 51 successful assign calls in a row it holds exactly 50: the
    actions logged by the last 50 calls, in order, the action of the first
    call having been shifted out. *)
Theorem undo_stack_capped (newDate : string -> option Date) (w : World) :
  reachable newDate w ->
  (List.length (undoStack w) <= 50)%nat
  /\ forall first rest w' r rs,
       List.length rest = 50%nat ->
       assignAll newDate (first :: rest) w = Some (w', r :: rs) ->
       List.length (undoStack w') = 50%nat
       /\ undoStack w' = loggedCreates rest rs
       /\ ~ In (loggedCreate (fst first) r) (undoStack w').
Proof.
  intros Hreach. pose proof (reachable_bounded newDate w Hreach) as Hb.
  assert (Hlen : (List.length (undoStack w) <= 50)%nat).
  { unfold historyBounded in Hb. lia. }
  split; [exact Hlen|].
  intros [now req] rest w' r rs Hrest Hrun.
  destruct (assignAll_effect newDate _ _ _ _ Hrun) as (Hu & Hl & _ & _).
  assert (Hstack : undoStack w' = loggedCreates rest rs).
  { rewrite Hu, fold_pushCapped by exact Hlen.
    simpl in Hl. injection Hl as Hl.
    assert (Hlc : forall (c : list (Date * AssignRequest)) (s : list AssignResponse),
               List.length s = List.length c ->
               List.length (loggedCreates c s) = List.length c).
    { induction c as [|[n q] c IHc]; intros [|x s] Hcs; simpl in *;
        try reflexivity; try discriminate. f_equal. apply IHc. lia. }
    specialize (Hlc rest rs Hl).
    unfold lastn. rewrite length_app. cbn [loggedCreates List.length].
    rewrite Hlc, Hrest.
    replace (List.length (undoStack w) + 51 - 50)%nat
      with (List.length (undoStack w) + 1)%nat by lia.
    rewrite skipn_app.
    rewrite skipn_all2 by lia.
    replace (List.length (undoStack w) + 1 - List.length (undoStack w))%nat
      with 1%nat by lia.
    reflexivity. }
  split; [|split].
  - rewrite Hstack.
    simpl in Hl. injection Hl as Hl. clear - Hl Hrest.
    revert rs Hl Hrest. generalize 50%nat.
    induction rest as [|[n q] c IHc]; intros k [|x s] Hcs Hk; simpl in *;
      try lia; try discriminate.
    destruct k; [discriminate|]. f_equal. apply (IHc k s); lia.
  - exact Hstack.
  - rewrite Hstack. intros Hin. simpl in Hrun.
    destruct (assign newDate now req w) as [w1 [r1|e]] eqn:E; [|discriminate].
    destruct (assignAll newDate rest w1) as [[w2 rs']|] eqn:E'; [|discriminate].
    inversion Hrun; subst; clear Hrun.
    destruct (assignAll_effect newDate _ _ _ _ E') as (_ & _ & _ & Hids).
    specialize (Hids _ Hin).
    destruct (assign_ok_inv newDate _ _ _ _ _ E)
      as (car & shop & md & _ & _ & _ & _ & Hdata & _ & Hdb & _ & _).
    rewrite Hdb in Hids. simpl in Hids. rewrite Hdata in Hids. simpl in Hids. lia.
Qed.

(* ===================================================================== *)
(** ** apply *)
(* ===================================================================== *)

Lemma createAssignment_effect now carId shopId month w w1 res :
  prisma.createAssignment now carId shopId month w = (w1, res) ->
  scenarios (db w1) = scenarios (db w)
  /\ (forall c m, prisma.findByCarMonth c m (db w) <> None ->
                  prisma.findByCarMonth c m (db w1) <> None)
  /\ (forall a, res = Ok a -> prisma.findByCarMonth carId month (db w1) <> None).
Proof.
  unfold prisma.createAssignment.
  destruct (prisma.findAssignment _ _).
  { intros H; inversion H; subst. repeat split; auto; discriminate. }
  destruct (prisma.findByCarMonth carId month _) eqn:Eex.
  { intros H; inversion H; subst. repeat split; auto; discriminate. }
  destruct (prisma.findCar _ _).
  2:{ intros H; inversion H; subst. repeat split; auto; discriminate. }
  destruct (prisma.findShop _ _).
  2:{ intros H; inversion H; subst. repeat split; auto; discriminate. }
  intros H; inversion H; subst; clear H. repeat split.
  - intros c0 m0 Hc. unfold prisma.findByCarMonth in *. simpl in *.
    destruct (find (fun a => (a_carId a =? c0) && date_eqb (a_month a) m0)
                (assignments (db w))) as [x|] eqn:E; [|congruence].
    rewrite (find_app_some _ _ _ _ E). discriminate.
  - intros a _. unfold prisma.findByCarMonth in *. simpl in *.
    rewrite (find_app_none _ _ _ Eex). simpl.
    rewrite Z.eqb_refl, date_eqb_refl. discriminate.
Qed.

Lemma updateCarStatus_effect now id status w w1 res :
  prisma.updateCarStatus now id status w = (w1, res) ->
  scenarios (db w1) = scenarios (db w)
  /\ assignments (db w1) = assignments (db w).
Proof.
  unfold prisma.updateCarStatus.
  destruct (prisma.findCar _ _); intros H; inversion H; subst; split; reflexivity.
Qed.

Section ApplyFacts.

Variable newDate : string -> option Date.

Lemma applyLoop_effect now l : forall created w w1 res,
  applyLoop newDate now l created w = (w1, res) ->
  scenarios (db w1) = scenarios (db w)
  /\ (forall c m, prisma.findByCarMonth c m (db w) <> None ->
                  prisma.findByCarMonth c m (db w1) <> None)
  /\ (forall out, res = Ok out -> forall sa, In sa l -> coveredBy newDate (db w1) sa).
Proof.
  induction l as [|sa l IH]; intros created w w1 res; simpl.
  - intros H; inversion H; subst. repeat split; auto. intros _ _ sa [].
  - destruct (newDate (sa_month sa)) as [month|] eqn:Edate.
    2:{ intros H; inversion H; subst. repeat split; auto. discriminate. }
    unfold bind at 1. unfold readDb at 1.
    destruct (prisma.findByCarMonth (sa_carId sa) month (db w)) as [ex|] eqn:Eex.
    + intros H. destruct (IH _ _ _ _ H) as (Hs & Hp & Hc).
      repeat split; auto.
      intros out Hout sa' [<-|Hin]; [|now apply (Hc out)].
      exists month. split; [exact Edate|]. apply Hp. congruence.
    + unfold bind at 1.
      destruct (prisma.createAssignment now (sa_carId sa) (sa_shopId sa) month w)
        as [w2 [a|e]] eqn:Ec.
      2:{ intros H; inversion H; subst.
          destruct (createAssignment_effect _ _ _ _ _ _ _ Ec) as (Hs & Hp & _).
          repeat split; auto. discriminate. }
      destruct (createAssignment_effect _ _ _ _ _ _ _ Ec) as (Hs2 & Hp2 & Hn2).
      unfold bind at 1.
      destruct (prisma.updateCarStatus now (sa_carId sa) "scheduled" w2)
        as [w3 [c|e]] eqn:Eu.
      2:{ intros H; inversion H; subst.
          destruct (updateCarStatus_effect _ _ _ _ _ _ Eu) as (Hs3 & Ha3).
          repeat split; try congruence; try discriminate.
          intros c m Hc. unfold prisma.findByCarMonth in *. rewrite Ha3.
          now apply Hp2. }
      destruct (updateCarStatus_effect _ _ _ _ _ _ Eu) as (Hs3 & Ha3).
      intros H. destruct (IH _ _ _ _ H) as (Hs & Hp & Hc).
      assert (Hp3 : forall c m, prisma.findByCarMonth c m (db w) <> None ->
                                prisma.findByCarMonth c m (db w3) <> None).
      { intros c' m Hc'. unfold prisma.findByCarMonth in *. rewrite Ha3.
        now apply Hp2. }
      repeat split.
      * congruence.
      * intros c' m Hc'. apply Hp. now apply Hp3.
      * intros out Hout sa' [<-|Hin]; [|now apply (Hc out)].
        exists month. split; [exact Edate|]. apply Hp.
        unfold prisma.findByCarMonth in *. rewrite Ha3. now apply (Hn2 a).
Qed.

(** Tuples that the ledger already covers are skipped: nothing is written
    and nothing is added to [created]. *)
Lemma applyLoop_skips_existing now l : forall created w,
  (forall sa, In sa l -> coveredBy newDate (db w) sa) ->
  applyLoop newDate now l created w = (w, Ok created).
Proof.
  induction l as [|sa l IH]; intros created w H; simpl; [reflexivity|].
  destruct (H sa (or_introl eq_refl)) as (m & Em & Hex).
  rewrite Em. unfold bind at 1. unfold readDb at 1.
  destruct (prisma.findByCarMonth (sa_carId sa) m (db w)); [|congruence].
  apply IH. intros sa' Hin. apply H. now right.
Qed.

(** C5.  When apply has succeeded for a stored scenario, applying the same
    scenario again on the resulting ledger succeeds too, creates no
    assignment (the answer lists none) and leaves the store as it is: each
    proposed tuple finds its (carId, month) already assigned and is
    skipped. *)
Theorem apply_is_idempotent now now' id w w1 created :
  applyScenario newDate now id w = (w1, Ok created) ->
  applyScenario newDate now' id w1 = (w1, Ok []).
Proof.
  unfold applyScenario. unfold bind at 1. unfold readDb at 1.
  destruct (prisma.findScenario id (db w)) as [sc|] eqn:Esc; [|discriminate].
  destruct (sc_assignments sc) as [l|] eqn:El; [|discriminate].
  unfold prisma.transaction.
  destruct (applyLoop newDate now l [] w) as [w2 [out|e]] eqn:Eloop;
    [|discriminate].
  intros H; inversion H; subst; clear H.
  destruct (applyLoop_effect _ _ _ _ _ _ Eloop) as (Hs & _ & Hc).
  unfold bind at 1. unfold readDb at 1.
  unfold prisma.findScenario in *. rewrite Hs, Esc, El.
  rewrite (applyLoop_skips_existing now' l [] w1 (Hc _ eq_refl)).
  reflexivity.
Qed.

(** C6.  When apply throws, for whatever reason, the tables are exactly as
    they were before the call (no assignment of the call is stored, no car
    status is changed), and so are the history arrays.  Only the id
    sequence, which is not transactional, may have advanced. *)
Theorem apply_is_atomic now id w w' e :
  applyScenario newDate now id w = (w', Throw e) ->
  sameTables (db w) (db w') /\ sameHistory w w'.
Proof.
  unfold applyScenario. unfold bind at 1. unfold readDb at 1.
  destruct (prisma.findScenario id (db w)) as [sc|].
  2:{ intros H; inversion H; subst. repeat split; reflexivity. }
  destruct (sc_assignments sc) as [l|].
  2:{ intros H; inversion H; subst. repeat split; reflexivity. }
  unfold prisma.transaction.
  pose proof (keeps_applyLoop newDate now l [] w) as K.
  destruct (applyLoop newDate now l [] w) as [w2 [out|e2]]; [discriminate|].
  intros H; inversion H; subst; clear H.
  split; [repeat split; reflexivity|exact K].
Qed.

End ApplyFacts.

(* ===================================================================== *)
(** ** The statements at the example data *)
(* ===================================================================== *)

Lemma db_wf_check (d : Db) :
  forallb (fun a => a_id a <=? assignmentSeq d) (assignments d)
  && forallb (fun c => 0 <? car_id c) (cars d)
  && forallb (fun s => 0 <? shop_id s) (shops d) = true ->
  db_wf d.
Proof.
  rewrite !andb_true_iff. intros [[Ha Hc] Hs]. repeat split.
  - intros a Hin. apply Z.leb_le. exact (forallb_In _ _ Ha a Hin).
  - intros c Hin. apply Z.ltb_lt. exact (forallb_In _ _ Hc c Hin).
  - intros s Hin. apply Z.ltb_lt. exact (forallb_In _ _ Hs s Hin).
Qed.



Lemma undo_stack_capped_witness :
  exists w' r rs,
    assignAll Examples.isoDateOnly Examples.calls51 Examples.world40
    = Some (w', r :: rs)
    /\ List.length (undoStack w') = 50%nat
    /\ ~ In (loggedCreate (Examples.noon 2024 11 20) r) (undoStack w').
Proof.
  destruct (undo_stack_capped Examples.isoDateOnly Examples.world40
              (reach_start _ Examples.ledger40)) as [_ H].
  destruct (assignAll Examples.isoDateOnly Examples.calls51 Examples.world40)
    as [[w' [|r rs]]|] eqn:E.
  - exfalso. vm_compute in E. discriminate E.
  - exists w', r, rs. split; [reflexivity|].
    destruct (H (Examples.callFor 1) (map Examples.callFor (seq 2 50)) w' r rs
                eq_refl E) as (Hlen & _ & Hout).
    split; [exact Hlen|exact Hout].
  - exfalso. vm_compute in E. discriminate E.
Defined.

Lemma apply_is_idempotent_witness :
  exists w1 created,
    applyScenario Examples.isoDateOnly (Examples.noon 2024 11 20) 7
      Examples.planWorld = (w1, Ok created)
    /\ List.length created = 2%nat
    /\ applyScenario Examples.isoDateOnly (Examples.noon 2024 11 21) 7 w1
       = (w1, Ok []).
Proof.
  destruct (applyScenario Examples.isoDateOnly (Examples.noon 2024 11 20) 7
              Examples.planWorld) as [w1 [created|e]] eqn:E.
  - exists w1, created. split; [reflexivity|]. split.
    + vm_compute in E. inversion E. reflexivity.
    + exact (apply_is_idempotent Examples.isoDateOnly _
               (Examples.noon 2024 11 21) _ _ _ _ E).
  - exfalso. vm_compute in E. discriminate E.
Defined.

(** Plan 8 inserts its first tuple and fails on the second (foreign key);
    the first insertion is not kept. *)
Lemma apply_is_atomic_witness :
  exists w',
    applyScenario Examples.isoDateOnly (Examples.noon 2024 11 20) 8
      Examples.planWorld = (w', Throw (PrismaError P2003))
    /\ sameTables (db Examples.planWorld) (db w')
    /\ sameHistory Examples.planWorld w'.
Proof.
  destruct (applyScenario Examples.isoDateOnly (Examples.noon 2024 11 20) 8
              Examples.planWorld) as [w' [created|e]] eqn:E.
  - exfalso. vm_compute in E. discriminate E.
  - exists w'.
    assert (He : e = PrismaError P2003).
    { vm_compute in E. inversion E. reflexivity. }
    split; [now rewrite He|].
    exact (apply_is_atomic Examples.isoDateOnly _ _ _ _ _ E).
Defined.

(* ===================================================================== *)
(** ** undo followed by redo *)
(* ===================================================================== *)

Lemma pop_pushCapped (l : list HistoryAction) (a : HistoryAction) :
  exists rest, pop (pushCapped l a) = Some (a, rest).
Proof.
  unfold pushCapped, shift.
  destruct (Z.of_nat (List.length (l ++ [a])) >? MAX_HISTORY) eqn:E.
  - destruct l as [|x l]; simpl.
    + vm_compute in E. discriminate E.
    + exists l. apply pop_snoc.
  - exists l. apply pop_snoc.
Qed.

Lemma deleteAssignment_last (w : World) (old : list Assignment) (a : Assignment) :
  assignments (db w) = old ++ [a] ->
  (forall x, In x old -> a_id x <> a_id a) ->
  prisma.deleteAssignment (a_id a) w
  = (withDb w (withAssignments (db w) old), Ok a).
Proof.
  intros Ha Hfresh. unfold prisma.deleteAssignment, prisma.findAssignment.
  rewrite Ha.
  assert (Hfind : find (fun x => a_id x =? a_id a) old = None).
  { clear Ha. induction old as [|x old IH]; simpl; [reflexivity|].
    destruct (a_id x =? a_id a) eqn:E.
    - apply Z.eqb_eq in E. exfalso. apply (Hfresh x); [now left|exact E].
    - apply IH. intros y Hy. apply Hfresh. now right. }
  rewrite (find_app_none _ _ _ Hfind). simpl. rewrite Z.eqb_refl.
  rewrite filter_app. simpl. rewrite Z.eqb_refl. simpl. rewrite app_nil_r.
  do 3 f_equal.
  clear Ha Hfind. induction old as [|x old IH]; simpl; [reflexivity|].
  destruct (a_id x =? a_id a) eqn:E.
  - apply Z.eqb_eq in E. exfalso. apply (Hfresh x); [now left|exact E].
  - simpl. f_equal. apply IH. intros y Hy. apply Hfresh. now right.
Qed.

Lemma updateCarStatus_found now id status (w : World) (c : Car) :
  prisma.findCar id (db w) = Some c ->
  prisma.updateCarStatus now id status w
  = (withDb w (withCars (db w)
       (map (fun x => if car_id x =? id then mkCar id status now else x)
            (cars (db w)))), Ok (mkCar id status now)).
Proof. intros H. unfold prisma.updateCarStatus. now rewrite H. Qed.

Lemma createAssignment_fresh now carId shopId month (w : World) (c : Car) (s : Shop) :
  (forall x, In x (assignments (db w)) -> a_id x <= assignmentSeq (db w)) ->
  prisma.findByCarMonth carId month (db w) = None ->
  prisma.findCar carId (db w) = Some c ->
  prisma.findShop shopId (db w) = Some s ->
  prisma.createAssignment now carId shopId month w
  = (withDb w
       (withAssignments (withSeq (db w) (assignmentSeq (db w) + 1))
          (assignments (db w)
           ++ [mkAssignment (assignmentSeq (db w) + 1) carId shopId month now now])),
     Ok (mkAssignment (assignmentSeq (db w) + 1) carId shopId month now now)).
Proof.
  intros Hseq Hex Hcar Hshop. unfold prisma.createAssignment.
  assert (Hfresh : prisma.findAssignment (assignmentSeq (db w) + 1)
                     (withSeq (db w) (assignmentSeq (db w) + 1)) = None).
  { unfold prisma.findAssignment. simpl.
    destruct (find _ (assignments (db w))) as [a|] eqn:E; [|reflexivity].
    apply find_some in E. destruct E as [Hin E].
    apply Z.eqb_eq in E. specialize (Hseq _ Hin). lia. }
  rewrite Hfresh.
  change (prisma.findByCarMonth carId month
            (withSeq (db w) (assignmentSeq (db w) + 1)))
    with (prisma.findByCarMonth carId month (db w)).
  change (prisma.findCar carId (withSeq (db w) (assignmentSeq (db w) + 1)))
    with (prisma.findCar carId (db w)).
  change (prisma.findShop shopId (withSeq (db w) (assignmentSeq (db w) + 1)))
    with (prisma.findShop shopId (db w)).
  now rewrite Hex, Hcar, Hshop.
Qed.

Section UndoRedoFacts.

Variable newDate : string -> option Date.

(** undo right after a successful assign: the assignment is deleted, the
    ledger holds the rows it held before the assign, and the car is set
    back to 'unscheduled' when it had no assignment before. *)
Lemma undo_after_assign now now2 req w w1 r :
  db_wf (db w) ->
  assign newDate now req w = (w1, Ok r) ->
  exists w2 sizes rest,
    undo now2 w1 = (w2, Ok sizes)
    /\ assignments (db w2) = assignments (db w)
    /\ assignmentSeq (db w2) = assignmentSeq (db w) + 1
    /\ shops (db w2) = shops (db w)
    /\ prisma.findCar (req_carId req) (db w2) <> None
    /\ (prisma.countCar (req_carId req) (db w) = 0 ->
        statusOfCar (req_carId req) (db w2) = Some "unscheduled"%string)
    /\ (prisma.countCar (req_carId req) (db w) <> 0 ->
        statusOfCar (req_carId req) (db w2) = Some "scheduled"%string)
    /\ undoStack w1 = rest ++ [loggedCreate now r]
    /\ undoStack w2 = rest
    /\ redoStack w2 = [loggedCreate now r].
Proof.
  intros (Hseq & _ & _) Hrun.
  destruct (assign_ok_inv newDate _ _ _ _ _ Hrun)
    as (car & shop & md & Ecar & Eshop & Edate & Eex & Hdata & _ & Hdb & Hundo & Hredo).
  destruct (pop_pushCapped (undoStack w) (mkAction create (res_data r) now))
    as [rest Hpop].
  rewrite <- Hundo in Hpop.
  pose proof (pop_some _ _ _ Hpop) as Hstack.
  destruct w1 as [d1 u1 r1]. simpl in Hdb, Hundo, Hredo, Hpop, Hstack.
  subst d1 r1.
  unfold undo. cbn [undoStack redoStack db]. rewrite Hpop.
  cbn [act_type act_assignment app].
  set (w1' := mkWorld _ rest _).
  assert (Hcar1 : prisma.findCar (req_carId req) (db w1')
                  = Some (mkCar (req_carId req) "scheduled" now)).
  { unfold prisma.findCar. simpl.
    apply find_update_car; [reflexivity|].
    unfold prisma.findCar in Ecar. congruence. }
  assert (Hdel : prisma.deleteAssignment (a_id (res_data r)) w1'
                 = (withDb w1' (withAssignments (db w1') (assignments (db w))),
                    Ok (res_data r))).
  { apply deleteAssignment_last; [reflexivity|].
    intros x Hx. specialize (Hseq x Hx). rewrite Hdata. simpl. lia. }
  unfold bind at 1. unfold deleteAndRestatus. unfold bind at 1. rewrite Hdel.
  unfold bind at 1. unfold readDb at 1.
  assert (Hcount : prisma.countCar (a_carId (res_data r))
                     (db (withDb w1' (withAssignments (db w1') (assignments (db w)))))
                   = prisma.countCar (req_carId req) (db w)).
  { rewrite Hdata. reflexivity. }
  rewrite Hcount.
  destruct (prisma.countCar (req_carId req) (db w) =? 0) eqn:E0.
  - unfold bind at 1.
    assert (Hcar2 : prisma.findCar (a_carId (res_data r))
                      (db (withDb w1' (withAssignments (db w1') (assignments (db w)))))
                    = Some (mkCar (req_carId req) "scheduled" now)).
    { rewrite Hdata. exact Hcar1. }
    rewrite (updateCarStatus_found _ _ _ _ _ Hcar2).
    unfold ret. eexists. eexists. exists rest.
    split; [reflexivity|]. cbn [fst db undoStack redoStack withDb].
    repeat split.
    + rewrite Hdata. unfold prisma.findCar. simpl.
      rewrite find_update_car; [discriminate|reflexivity|].
      unfold prisma.findCar in Hcar1. simpl in Hcar1. congruence.
    + intros _. rewrite Hdata. unfold statusOfCar, prisma.findCar. simpl.
      rewrite find_update_car; [reflexivity|reflexivity|].
      unfold prisma.findCar in Hcar1. simpl in Hcar1. congruence.
    + intros Hne. apply Z.eqb_eq in E0. contradiction.
    + exact Hstack.
  - unfold ret. eexists. eexists. exists rest.
    split; [reflexivity|]. cbn [fst db undoStack redoStack withDb].
    repeat split.
    + change (prisma.findCar (req_carId req)
                (withAssignments (db w1') (assignments (db w))))
        with (prisma.findCar (req_carId req) (db w1')).
      rewrite Hcar1. discriminate.
    + intros H0. rewrite H0 in E0. discriminate E0.
    + intros _. unfold statusOfCar.
      change (prisma.findCar (req_carId req)
                (withAssignments (db w1') (assignments (db w))))
        with (prisma.findCar (req_carId req) (db w1')).
      rewrite Hcar1. reflexivity.
    + exact Hstack.
Qed.

(** redo after that undo inserts a new row: same car, shop and month, but
    the next id of the sequence and the time of the redo; the action put
    back on the undo array still carries the old row, so one more undo
    finds nothing to delete. *)
Lemma undo_redo_renumbers now now2 now3 now4 req w w1 r :
  db_wf (db w) ->
  assign newDate now req w = (w1, Ok r) ->
  exists w2 s2 w3 s3,
    undo now2 w1 = (w2, Ok s2)
    /\ redo now3 w2 = (w3, Ok s3)
    /\ assignments (db w3)
       = assignments (db w)
         ++ [mkAssignment (a_id (res_data r) + 1) (a_carId (res_data r))
               (a_shopId (res_data r)) (a_month (res_data r)) now3 now3]
    /\ undoStack w3 = undoStack w1
    /\ snd (undo now4 w3) = Throw (PrismaError P2025).
Proof.
  intros Hwf Hrun.
  destruct (undo_after_assign now now2 req w w1 r Hwf Hrun)
    as (w2 & s2 & rest & Hundo & Hass & Hsq & Hshops & Hcar & _ & _ & Hu1 & Hu2 & Hr2).
  destruct Hwf as (Hseq & _ & _).
  destruct (assign_ok_inv newDate _ _ _ _ _ Hrun)
    as (car & shop & md & _ & Eshop & _ & Eex & Hdata & _ & _ & _ & _).
  exists w2, s2.
  destruct (prisma.findCar (req_carId req) (db w2)) as [c2|] eqn:Ecar2;
    [clear Hcar|congruence].
  unfold redo. rewrite Hr2.
  cbn [pop loggedCreate act_type act_assignment].
  set (w2' := mkWorld _ _ _).
  assert (Hcreate :
    prisma.createAssignment now3 (a_carId (res_data r)) (a_shopId (res_data r))
      (a_month (res_data r)) w2'
    = (withDb w2'
         (withAssignments (withSeq (db w2') (assignmentSeq (db w2') + 1))
            (assignments (db w2')
             ++ [mkAssignment (assignmentSeq (db w2') + 1) (a_carId (res_data r))
                   (a_shopId (res_data r)) (a_month (res_data r)) now3 now3])),
       Ok (mkAssignment (assignmentSeq (db w2') + 1) (a_carId (res_data r))
             (a_shopId (res_data r)) (a_month (res_data r)) now3 now3))).
  { apply (createAssignment_fresh _ _ _ _ _ c2 shop).
    - subst w2'. cbn [db]. rewrite Hass, Hsq. intros x Hx.
      specialize (Hseq x Hx). lia.
    - subst w2'. cbn [db]. rewrite Hdata. cbn [a_carId a_month].
      unfold prisma.findByCarMonth in *. now rewrite Hass.
    - subst w2'. cbn [db]. rewrite Hdata. exact Ecar2.
    - subst w2'. cbn [db]. rewrite Hdata. cbn [a_shopId].
      unfold prisma.findShop in *. now rewrite Hshops. }
  unfold bind at 1. unfold recreateAndRestatus. unfold bind at 1.
  rewrite Hcreate. unfold bind at 1.
  match goal with
  | |- context [prisma.updateCarStatus ?n ?i ?st ?x] =>
      assert (Hup : prisma.findCar i (db x) = Some c2)
  end.
  { rewrite Hdata. exact Ecar2. }
  rewrite (updateCarStatus_found _ _ _ _ _ Hup). unfold ret.
  eexists. eexists. split; [exact Hundo|]. split; [reflexivity|].
  cbn [fst snd db undoStack redoStack withDb withCars withAssignments withSeq
       assignments assignmentSeq].
  subst w2'. cbn [db undoStack redoStack]. rewrite Hass, Hsq, Hu2.
  assert (Hid : a_id (res_data r) = assignmentSeq (db w) + 1).
  { rewrite Hdata. reflexivity. }
  split; [now rewrite Hid|]. split; [symmetry; exact Hu1|].
  unfold undo, withDb. cbn [undoStack]. rewrite pop_snoc.
  cbn [loggedCreate act_type act_assignment].
  unfold bind at 1. unfold deleteAndRestatus. unfold bind at 1.
  unfold prisma.deleteAssignment, prisma.findAssignment, withCars, withAssignments.
  cbn [db assignments].
  assert (Hnone : find (fun a => a_id a =? a_id (res_data r))
                    (assignments (db w)
                     ++ [mkAssignment (assignmentSeq (db w) + 1 + 1)
                           (a_carId (res_data r)) (a_shopId (res_data r))
                           (a_month (res_data r)) now3 now3]) = None).
  { rewrite find_app_none.
    - simpl. rewrite Hid.
      destruct (assignmentSeq (db w) + 1 + 1 =? assignmentSeq (db w) + 1) eqn:E;
        [apply Z.eqb_eq in E; lia|reflexivity].
    - destruct (find (fun a => a_id a =? a_id (res_data r)) (assignments (db w)))
        as [x|] eqn:E; [|reflexivity].
      apply find_some in E. destruct E as [Hin E]. apply Z.eqb_eq in E.
      specialize (Hseq x Hin). lia. }
  rewrite Hnone. reflexivity.
Qed.

End UndoRedoFacts.

(** C4 (the route departs from it).  Car 41 is assigned for January 2025
    (assignment id 41).  undo deletes that assignment and sets the car back
    to 'unscheduled', as stated.  redo then inserts a new row, with id 42
    and a new creation time, while the action it pushes back on the undo
    array still names id 41: the ledger is not the one before the undo, and
    undoing once more throws (record to delete not found) after having
    moved the action to the redo array. *)
Theorem redo_does_not_restore_the_assignment :
  option_map a_id
    (prisma.findByCarMonth 41 (mkDate 2025 0 1 0) (db Examples.afterAssign))
    = Some 41
  /\ prisma.findByCarMonth 41 (mkDate 2025 0 1 0) (db Examples.afterUndo) = None
  /\ statusOfCar 41 (db Examples.afterUndo) = Some "unscheduled"%string
  /\ option_map a_id
       (prisma.findByCarMonth 41 (mkDate 2025 0 1 0) (db Examples.afterRedo))
     = Some 42
  /\ statusOfCar 41 (db Examples.afterRedo) = Some "scheduled"%string
  /\ assignments (db Examples.afterRedo) <> assignments (db Examples.afterAssign)
  /\ map (fun act => a_id (act_assignment act)) (undoStack Examples.afterRedo)
     = [41]
  /\ snd (undo (Examples.noon 2024 11 23) Examples.afterRedo)
     = Throw (PrismaError P2025)
  /\ undoStack (fst (undo (Examples.noon 2024 11 23) Examples.afterRedo)) = [].
Proof.
  repeat split; try (vm_compute; reflexivity).
  intros H. apply (f_equal (map a_id)) in H. vm_compute in H. discriminate H.
Qed.

(* ===================================================================== *)
(** ** forecast *)
(* ===================================================================== *)

Lemma mapGet_mapSet_same {V} (k : Z) (v : V) (m : list (Z * V)) :
  mapGet Z.eqb k (mapSet Z.eqb k v m) = Some v.
Proof.
  induction m as [|[k' v'] m IH]; simpl.
  - now rewrite Z.eqb_refl.
  - destruct (k =? k') eqn:E; simpl; rewrite E; [reflexivity|exact IH].
Qed.

Lemma mapGet_mapSet_other {V} (k k0 : Z) (v : V) (m : list (Z * V)) :
  k <> k0 -> mapGet Z.eqb k (mapSet Z.eqb k0 v m) = mapGet Z.eqb k m.
Proof.
  intros Hne. induction m as [|[k' v'] m IH]; simpl.
  - destruct (k =? k0) eqn:E; [apply Z.eqb_eq in E; contradiction|reflexivity].
  - destruct (k0 =? k') eqn:E0; simpl.
    + apply Z.eqb_eq in E0. subst k'.
      destruct (k =? k0) eqn:E; [apply Z.eqb_eq in E; contradiction|reflexivity].
    + destruct (k =? k'); [reflexivity|exact IH].
Qed.

(** The statistics of one shop, read off the assignments of that shop. *)
Lemma statsOf_fold (id : Z) (l : list Assignment) : forall m,
  statsOf id (fold_left addStat l m)
  = fold_left
      (fun st a => mkStats (total st + 1)
                     (setAdd (substring07 (toISOString (a_month a))) (months st)))
      (filter (fun a => a_shopId a =? id) l) (statsOf id m).
Proof.
  induction l as [|a l IH]; intros m; simpl; [reflexivity|].
  rewrite IH. destruct (a_shopId a =? id) eqn:E.
  - apply Z.eqb_eq in E. simpl. f_equal.
    unfold addStat, statsOf at 1. rewrite <- E, mapGet_mapSet_same. reflexivity.
  - f_equal. unfold addStat, statsOf at 1.
    rewrite mapGet_mapSet_other; [reflexivity|].
    intros C. subst id. now rewrite Z.eqb_refl in E.
Qed.

Lemma setAdd_spec (x : string) (s : list string) :
  NoDup s ->
  NoDup (setAdd x s) /\ (forall k, In k (setAdd x s) <-> k = x \/ In k s).
Proof.
  intros Hnd. unfold setAdd.
  destruct (existsb (String.eqb x) s) eqn:E.
  - split; [exact Hnd|]. intros k. split; [now right|].
    intros [->|H]; [|exact H].
    apply existsb_exists in E. destruct E as (y & Hy & Exy).
    apply String.eqb_eq in Exy. now subst y.
  - assert (Hnot : ~ In x s).
    { intros Hin. assert (T : existsb (String.eqb x) s = true).
      { apply existsb_exists. exists x. split; [exact Hin|apply String.eqb_refl]. }
      congruence. }
    split.
    + apply NoDup_app; [exact Hnd|repeat constructor; intros []|].
      intros y Hy [<-|[]]. contradiction.
    + intros k. rewrite in_app_iff. simpl. intuition.
Qed.

Lemma stats_fold_spec (l : list Assignment) : forall st,
  NoDup (months st) ->
  let st' := fold_left
      (fun st a => mkStats (total st + 1)
                     (setAdd (substring07 (toISOString (a_month a))) (months st)))
      l st in
  total st' = total st + Z.of_nat (List.length l)
  /\ NoDup (months st')
  /\ (forall k, In k (months st') <->
         In k (months st)
         \/ exists a, In a l /\ substring07 (toISOString (a_month a)) = k).
Proof.
  induction l as [|a l IH]; intros st Hnd; simpl.
  - repeat split; [lia|exact Hnd|now left|].
    intros [H|(a & [] & _)]. exact H.
  - destruct (setAdd_spec (substring07 (toISOString (a_month a))) (months st) Hnd)
      as [Hnd' Hin'].
    specialize (IH (mkStats (total st + 1)
                      (setAdd (substring07 (toISOString (a_month a))) (months st)))
                   Hnd').
    simpl in IH. destruct IH as (Ht & Hn & Hk).
    repeat split.
    + rewrite Ht. simpl. lia.
    + exact Hn.
    + intros H. apply Hk in H. destruct H as [H|(b & Hb & Eb)].
      * apply Hin' in H. destruct H as [->|H]; [|now left].
        right. exists a. split; [now left|reflexivity].
      * right. exists b. split; [now right|exact Eb].
    + intros H. apply Hk. destruct H as [H|(b & [<-|Hb] & Eb)].
      * left. apply Hin'. now right.
      * left. apply Hin'. now left.
      * right. exists b. split; assumption.
Qed.

(** What the route divides: the number of assignments of the shop among
    the rows it has read (month >= sixMonthsAgo, with no upper bound), by
    the number of distinct month keys among them; 0 when there is none. *)
Lemma forecast_average (now : Date) (d : Db) (shop : Shop) :
  let rows := filter (fun a => a_shopId a =? shop_id shop)
                (historicalAssignments now d) in
  let st := statsOf (shop_id shop) (shopStats now d) in
  total st = Z.of_nat (List.length rows)
  /\ NoDup (months st)
  /\ (forall k, In k (months st) <->
         exists a, In a rows /\ substring07 (toISOString (a_month a)) = k)
  /\ (rows = [] -> avgPerMonth st = 0%Q).
Proof.
  intros rows st. unfold st, shopStats. rewrite statsOf_fold.
  fold rows. change (statsOf (shop_id shop) []) with (mkStats 0 []).
  destruct (stats_fold_spec rows (mkStats 0 []) (NoDup_nil _)) as (Ht & Hn & Hk).
  repeat split.
  - rewrite Ht. simpl. lia.
  - exact Hn.
  - intros H. apply Hk in H. destruct H as [[]|H]. exact H.
  - intros H. apply Hk. now right.
  - intros E. rewrite E. reflexivity.
Qed.

(** Every projected period carries the same count, the rounded average,
    and there are as many periods as asked for. *)
Lemma forecastLoop_flat (n : nat) : forall current avg capacity,
  List.length (forecastLoop n current avg capacity) = n
  /\ forall p, In p (forecastLoop n current avg capacity) ->
               fp_projected p = roundQ avg.
Proof.
  induction n as [|n IH]; intros current avg capacity; simpl.
  - split; [reflexivity|contradiction].
  - destruct (IH (setMonth current (month0 current + 1)) avg capacity) as [L F].
    split; [now rewrite L|].
    intros p [<-|Hin]; [reflexivity|now apply F].
Qed.

(** C9 (the route departs from it).  On 15 June 2024 a shop whose only
    assignment is for September 2024 has no assignment in the trailing six
    months, so its average should be 0; the route, which bounds the months
    it reads only from below, answers average 1 and projects 1 for each of
    the six months.  And on 31 January 2025 the first projected period is
    March, not February. *)
Theorem forecast_counts_months_ahead :
  trailingWindowOf Examples.june15 Examples.shop50 Examples.futureOnly = []
  /\ (exists f,
        snd (forecast Examples.june15 None (mkWorld Examples.futureOnly [] []))
        = Ok [f]
        /\ sf_avgMonthlyAssignments f = Finite 1%Q
        /\ map fp_projected (sf_forecast f) = [1; 1; 1; 1; 1; 1])
  /\ (exists f,
        snd (forecast (Examples.noon 2025 1 31) (Some 3)
               (mkWorld Examples.futureOnly [] []))
        = Ok [f]
        /\ map fp_month (sf_forecast f)
           = ["2025-03"; "2025-04"; "2025-05"]%string).
Proof.
  split; [reflexivity|]. split.
  - eexists. split; [vm_compute; reflexivity|]. split; reflexivity.
  - eexists. split; [vm_compute; reflexivity|]. reflexivity.
Qed.

(* ===================================================================== *)
(** ** The constraints of the ledger are kept by every route *)
(* ===================================================================== *)

Lemma find_ne_none {A} (f : A -> bool) (l : list A) :
  find f l <> None <-> exists x, In x l /\ f x = true.
Proof.
  split.
  - destruct (find f l) as [a|] eqn:E; [|congruence].
    intros _. exists a. now apply find_some in E.
  - intros (x & Hin & Hx) E. pose proof (find_none f l E x Hin). congruence.
Qed.

Lemma NoDup_map_snoc {A B} (f : A -> B) (l : list A) (x : A) :
  NoDup (map f l) -> ~ In (f x) (map f l) -> NoDup (map f (l ++ [x])).
Proof.
  intros Hnd Hnot. rewrite map_app. simpl.
  apply NoDup_app; [exact Hnd|repeat constructor; intros []|].
  intros y Hy [<-|[]]. contradiction.
Qed.

Lemma NoDup_map_filter {Row Key : Type} (key : Row -> Key) (keep : Row -> bool) :
  forall rows : list Row,
    NoDup (map key rows) -> NoDup (map key (filter keep rows)).
Proof.
  intros l. set (p := keep).
  induction l as [|x l IH]; simpl; intros H; [constructor|].
  inversion H as [|? ? Hnot Hnd]; subst.
  destruct (p x); simpl; [|now apply IH].
  constructor; [|now apply IH].
  intros Hin. apply Hnot. apply in_map_iff in Hin.
  destruct Hin as (y & Hy & Hin). apply filter_In in Hin.
  apply in_map_iff. exists y. tauto.
Qed.

Lemma findCar_after_update (id c : Z) (c' : Car) (l : list Car) :
  car_id c' = id ->
  find (fun x => car_id x =? id) l <> None ->
  (find (fun x => car_id x =? c)
        (map (fun x => if car_id x =? id then c' else x) l) <> None
   <-> find (fun x => car_id x =? c) l <> None).
Proof.
  intros Hid Hfound. rewrite !find_ne_none. split.
  - intros (x & Hin & Hx). apply in_map_iff in Hin.
    destruct Hin as (y & Hy & Hin). apply Z.eqb_eq in Hx.
    destruct (car_id y =? id) eqn:E.
    + subst x. apply Z.eqb_eq in E. exists y. split; [exact Hin|].
      apply Z.eqb_eq. congruence.
    + subst x. exists y. split; [exact Hin|now apply Z.eqb_eq].
  - intros (x & Hin & Hx). apply Z.eqb_eq in Hx.
    destruct (car_id x =? id) eqn:E.
    + apply Z.eqb_eq in E. exists c'. split.
      * apply in_map_iff. exists x. split; [|exact Hin].
        apply Z.eqb_eq in E. now rewrite E.
      * apply Z.eqb_eq. congruence.
    + exists x. split; [|now apply Z.eqb_eq].
      apply in_map_iff. exists x. split; [now rewrite E|exact Hin].
Qed.

Lemma ledgerInv_withSeq (d : Db) (n : Z) :
  ledgerInv d -> assignmentSeq d <= n -> ledgerInv (withSeq d n).
Proof.
  intros ((Hseq & Hc & Hs) & Hid & Hcm & Hfk) Hn.
  repeat split; try assumption.
  - intros a Hin. simpl in *. specialize (Hseq a Hin). lia.
  - now apply Hfk.
  - now apply Hfk.
Qed.

Lemma ledgerInv_withScenarios (d : Db) (l : list Scenario) :
  ledgerInv d -> ledgerInv (withScenarios d l).
Proof.
  intros ((Hseq & Hc & Hs) & Hid & Hcm & Hfk).
  repeat split; try assumption; now apply Hfk.
Qed.

Lemma ledgerInv_insert (d : Db) now carId shopId month (c : Car) (s : Shop) :
  ledgerInv d ->
  prisma.findByCarMonth carId month d = None ->
  prisma.findCar carId d = Some c ->
  prisma.findShop shopId d = Some s ->
  ledgerInv
    (withAssignments (withSeq d (assignmentSeq d + 1))
       (assignments d
        ++ [mkAssignment (assignmentSeq d + 1) carId shopId month now now])).
Proof.
  intros ((Hseq & Hc & Hs) & Hid & Hcm & Hfk) Hex Hcar Hshop.
  repeat split; try assumption.
  - intros a Hin. simpl in *. apply in_app_iff in Hin.
    destruct Hin as [Hin|[<-|[]]]; [specialize (Hseq a Hin); lia|simpl; lia].
  - simpl. apply NoDup_map_snoc; [exact Hid|]. simpl.
    intros Hin. apply in_map_iff in Hin. destruct Hin as (x & Hx & Hin).
    specialize (Hseq x Hin). lia.
  - simpl. apply NoDup_map_snoc; [exact Hcm|]. unfold carMonth at 1. simpl.
    intros Hin. apply in_map_iff in Hin. destruct Hin as (x & Hx & Hin).
    unfold carMonth in Hx. inversion Hx as [[E1 E2]].
    unfold prisma.findByCarMonth in Hex.
    pose proof (find_none _ _ Hex x Hin) as Hf. simpl in Hf.
    rewrite E1, E2, Z.eqb_refl, date_eqb_refl in Hf. discriminate Hf.
  - simpl in H. apply in_app_iff in H. destruct H as [H|[<-|[]]].
    + now apply Hfk.
    + simpl. unfold prisma.findCar in *. simpl. congruence.
  - simpl in H. apply in_app_iff in H. destruct H as [H|[<-|[]]].
    + now apply Hfk.
    + simpl. unfold prisma.findShop in *. simpl. congruence.
Qed.

Lemma ledgerInv_remove (d : Db) (p : Assignment -> bool) :
  ledgerInv d -> ledgerInv (withAssignments d (filter p (assignments d))).
Proof.
  intros ((Hseq & Hc & Hs) & Hid & Hcm & Hfk).
  repeat split; try assumption.
  - intros a Hin. simpl in *. apply filter_In in Hin. now apply Hseq.
  - simpl. now apply NoDup_map_filter.
  - simpl. now apply NoDup_map_filter.
  - simpl in H. apply filter_In in H. now apply Hfk.
  - simpl in H. apply filter_In in H. now apply Hfk.
Qed.

Lemma ledgerInv_update_car (d : Db) now (id : Z) (status : string) (c : Car) :
  ledgerInv d ->
  prisma.findCar id d = Some c ->
  ledgerInv
    (withCars d
       (map (fun x => if car_id x =? id then mkCar id status now else x) (cars d))).
Proof.
  intros ((Hseq & Hc & Hs) & Hid & Hcm & Hfk) Hcar.
  assert (Hpos : 0 < id).
  { unfold prisma.findCar in Hcar. apply find_some in Hcar.
    destruct Hcar as [Hin E]. apply Z.eqb_eq in E. specialize (Hc _ Hin). lia. }
  repeat split; try assumption.
  - intros x Hin. simpl in Hin. apply in_map_iff in Hin.
    destruct Hin as (y & Hy & Hin).
    destruct (car_id y =? id); subst x; [exact Hpos|now apply Hc].
  - unfold prisma.findCar. simpl.
    apply findCar_after_update; [reflexivity| |now apply Hfk].
    unfold prisma.findCar in Hcar. congruence.
  - now apply Hfk.
Qed.

Lemma keepsLedger_ret {A} (a : A) : keepsLedger (ret a).
Proof. intros w H. split; [exact H|simpl; lia]. Qed.

Lemma keepsLedger_throw {A} (e : Error) : keepsLedger (@throw A e).
Proof. intros w H. split; [exact H|simpl; lia]. Qed.

Lemma keepsLedger_readDb {A} (f : Db -> A) : keepsLedger (readDb f).
Proof. intros w H. split; [exact H|simpl; lia]. Qed.

Lemma keepsLedger_addToHistory (a : HistoryAction) : keepsLedger (addToHistory a).
Proof. intros w H. split; [exact H|simpl; lia]. Qed.

Lemma keepsLedger_bind {A B} (m : M A) (k : A -> M B) :
  keepsLedger m -> (forall a, keepsLedger (k a)) -> keepsLedger (bind m k).
Proof.
  intros Hm Hk w Hw. unfold bind. destruct (Hm w Hw) as [H1 H2].
  destruct (m w) as [w1 [a|e]]; simpl in *; [|now split].
  destruct (Hk a w1 H1) as [H3 H4]. split; [exact H3|lia].
Qed.

Lemma keepsLedger_createAssignment now carId shopId month :
  keepsLedger (prisma.createAssignment now carId shopId month).
Proof.
  intros w H. unfold prisma.createAssignment.
  assert (Hfail : ledgerInv (withSeq (db w) (assignmentSeq (db w) + 1))).
  { apply ledgerInv_withSeq; [exact H|lia]. }
  destruct (prisma.findAssignment _ _); [split; [exact Hfail|simpl; lia]|].
  destruct (prisma.findByCarMonth carId month _) eqn:Eex;
    [split; [exact Hfail|simpl; lia]|].
  destruct (prisma.findCar carId _) as [c|] eqn:Ecar;
    [|split; [exact Hfail|simpl; lia]].
  destruct (prisma.findShop shopId _) as [s|] eqn:Eshop;
    [|split; [exact Hfail|simpl; lia]].
  split; [|simpl; lia].
  exact (ledgerInv_insert (db w) now carId shopId month c s H Eex Ecar Eshop).
Qed.

Lemma keepsLedger_deleteAssignment id : keepsLedger (prisma.deleteAssignment id).
Proof.
  intros w H. unfold prisma.deleteAssignment.
  destruct (prisma.findAssignment id (db w)); [|split; [exact H|simpl; lia]].
  split; [|simpl; lia]. now apply ledgerInv_remove.
Qed.

Lemma keepsLedger_updateCarStatus now id status :
  keepsLedger (prisma.updateCarStatus now id status).
Proof.
  intros w H. unfold prisma.updateCarStatus.
  destruct (prisma.findCar id (db w)) as [c|] eqn:E; [|split; [exact H|simpl; lia]].
  split; [|simpl; lia]. exact (ledgerInv_update_car (db w) now id status c H E).
Qed.

Lemma keepsLedger_transaction {A} (body : M A) :
  keepsLedger body -> keepsLedger (prisma.transaction body).
Proof.
  intros Hb w H. unfold prisma.transaction. destruct (Hb w H) as [H1 H2].
  destruct (body w) as [w1 [a|e]]; simpl in *; [now split|].
  split; [now apply ledgerInv_withSeq|exact H2].
Qed.

Create HintDb ledger.

#[local] Hint Resolve keepsLedger_ret keepsLedger_throw keepsLedger_readDb
  keepsLedger_addToHistory keepsLedger_createAssignment
  keepsLedger_deleteAssignment keepsLedger_updateCarStatus : ledger.

Ltac ledger_tac :=
  repeat first
    [ apply keepsLedger_bind; [|intros ?]
    | apply keepsLedger_transaction
    | solve [auto with ledger]
    | match goal with
      | |- keepsLedger (match ?x with _ => _ end) => destruct x
      | |- keepsLedger (if ?x then _ else _) => destruct x
      end ].

Lemma keepsLedger_deleteAndRestatus now a : keepsLedger (deleteAndRestatus now a).
Proof. unfold deleteAndRestatus. ledger_tac. Qed.

Lemma keepsLedger_recreateAndRestatus now a :
  keepsLedger (recreateAndRestatus now a).
Proof. unfold recreateAndRestatus. ledger_tac. Qed.

#[local] Hint Resolve keepsLedger_deleteAndRestatus
  keepsLedger_recreateAndRestatus : ledger.

Lemma keepsLedger_assign newDate now req : keepsLedger (assign newDate now req).
Proof. unfold assign. ledger_tac. Qed.

Lemma keepsLedger_unassign now id : keepsLedger (unassign now id).
Proof. unfold unassign. ledger_tac. Qed.

Lemma keepsLedger_reverse (now : Date) (action : HistoryAction) (undoing : bool) :
  keepsLedger
    (match act_type action with
     | create => if undoing then deleteAndRestatus now (act_assignment action)
                 else recreateAndRestatus now (act_assignment action)
     | delete => if undoing then recreateAndRestatus now (act_assignment action)
                 else deleteAndRestatus now (act_assignment action)
     | update => ret tt
     end ;;; fun w2 => (w2, Ok (stackSizes w2))).
Proof.
  apply keepsLedger_bind.
  - destruct (act_type action), undoing; auto with ledger.
  - intros _ w H. split; [exact H|simpl; lia].
Qed.

Lemma keepsLedger_undo now : keepsLedger (undo now).
Proof.
  intros w H. unfold undo.
  destruct (pop (undoStack w)) as [[action rest]|]; [|split; [exact H|simpl; lia]].
  exact (keepsLedger_reverse now action true
           (mkWorld (db w) rest (redoStack w ++ [action])) H).
Qed.

Lemma keepsLedger_redo now : keepsLedger (redo now).
Proof.
  intros w H. unfold redo.
  destruct (pop (redoStack w)) as [[action rest]|]; [|split; [exact H|simpl; lia]].
  exact (keepsLedger_reverse now action false
           (mkWorld (db w) (undoStack w ++ [action]) rest) H).
Qed.

Lemma keepsLedger_applyLoop newDate now l : forall created,
  keepsLedger (applyLoop newDate now l created).
Proof.
  induction l as [|sa l IH]; intros created; simpl.
  - apply keepsLedger_ret.
  - destruct (newDate (sa_month sa)); [|apply keepsLedger_throw].
    apply keepsLedger_bind; [apply keepsLedger_readDb|].
    intros [existing|]; [apply IH|].
    apply keepsLedger_bind; [apply keepsLedger_createAssignment|]. intros a.
    apply keepsLedger_bind; [apply keepsLedger_updateCarStatus|]. intros _.
    apply IH.
Qed.

Lemma keepsLedger_applyScenario newDate now id :
  keepsLedger (applyScenario newDate now id).
Proof.
  unfold applyScenario. apply keepsLedger_bind; [apply keepsLedger_readDb|].
  intros [sc|]; [|apply keepsLedger_throw].
  destruct (sc_assignments sc); [|apply keepsLedger_throw].
  apply keepsLedger_transaction, keepsLedger_applyLoop.
Qed.


Lemma distinctBy_NoDup {A} (eqb : A -> A -> bool) (l : list A) :
  (forall x y, eqb x y = true <-> x = y) ->
  distinctBy eqb l = true -> NoDup l.
Proof.
  intros Heq. induction l as [|x l IH]; simpl; [constructor|].
  rewrite andb_true_iff, negb_true_iff. intros [Hx Hl].
  constructor; [|now apply IH].
  intros Hin. assert (T : existsb (eqb x) l = true).
  { apply existsb_exists. exists x. split; [exact Hin|now apply Heq]. }
  congruence.
Qed.

Lemma carMonth_eqb_eq (x y : Z * Date) : carMonth_eqb x y = true <-> x = y.
Proof.
  destruct x as [c m], y as [c' m']. unfold carMonth_eqb. simpl.
  rewrite andb_true_iff, Z.eqb_eq, date_eqb_eq. split.
  - intros [-> ->]. reflexivity.
  - intros E. inversion E. split; reflexivity.
Qed.

Lemma ledgerInvb_sound (d : Db) : ledgerInvb d = true -> ledgerInv d.
Proof.
  unfold ledgerInvb. rewrite !andb_true_iff.
  intros [[[[[Ha Hc] Hs] Hid] Hcm] Hfk].
  split; [|split; [|split]].
  - apply db_wf_check. now rewrite Ha, Hc, Hs.
  - exact (distinctBy_NoDup Z.eqb _ Z.eqb_eq Hid).
  - exact (distinctBy_NoDup carMonth_eqb _ carMonth_eqb_eq Hcm).
  - intros a Hin. pose proof (forallb_In _ _ Hfk a Hin) as H.
    apply andb_true_iff in H. destruct H as [H1 H2].
    split.
    + destruct (prisma.findCar (a_carId a) d); [discriminate|discriminate H1].
    + destruct (prisma.findShop (a_shopId a) d); [discriminate|discriminate H2].
Qed.


(* ===================================================================== *)
(** ** assign: rejected calls *)
(* ===================================================================== *)

Section AssignRejections.

Variable newDate : string -> option Date.

(** X2.  An assign call that throws leaves no trace: the four tables and
    both history arrays are as before, and when the error is one the route
    raises itself (400 or 404) the whole state is untouched. *)
Theorem assign_throw_leaves_no_trace now req w w' e :
  assign newDate now req w = (w', Throw e) ->
  sameTables (db w) (db w')
  /\ sameHistory w w'
  /\ (forall message status, e = HttpError message status -> w' = w).
Proof.
  unfold assign.
  destruct ((req_carId req =? 0) || (req_shopId req =? 0)
            || String.eqb (req_month req) EmptyString).
  { intros H; inversion H; subst. repeat split; reflexivity. }
  unfold bind at 1. unfold readDb at 1.
  destruct (prisma.findCar (req_carId req) (db w)) as [car|] eqn:Ecar.
  2:{ intros H; inversion H; subst. repeat split; reflexivity. }
  unfold bind at 1. unfold readDb at 1.
  destruct (prisma.findShop (req_shopId req) (db w)) as [shop|] eqn:Eshop.
  2:{ intros H; inversion H; subst. repeat split; reflexivity. }
  destruct (newDate (req_month req)) as [monthDate|] eqn:Edate.
  2:{ intros H; inversion H; subst. repeat split; reflexivity. }
  unfold bind at 1. unfold readDb at 1.
  destruct (prisma.findByCarMonth (req_carId req) monthDate (db w)) eqn:Eex.
  { intros H; inversion H; subst. repeat split; reflexivity. }
  unfold bind at 1. unfold readDb at 1.
  unfold bind at 1. unfold prisma.createAssignment.
  destruct (prisma.findAssignment _ _).
  { intros H; inversion H; subst. repeat split; try reflexivity. discriminate. }
  destruct (prisma.findByCarMonth _ _ (withSeq _ _)).
  { intros H; inversion H; subst. repeat split; try reflexivity. discriminate. }
  destruct (prisma.findCar _ (withSeq _ _)) eqn:Ecar'.
  2:{ intros H; inversion H; subst. repeat split; try reflexivity. discriminate. }
  destruct (prisma.findShop _ (withSeq _ _)).
  2:{ intros H; inversion H; subst. repeat split; try reflexivity. discriminate. }
  unfold bind at 1. unfold prisma.updateCarStatus.
  match goal with
  | |- context [prisma.findCar ?i (db (withDb ?x ?y))] =>
      change (prisma.findCar i (db (withDb x y))) with (prisma.findCar i (db w))
  end.
  rewrite Ecar. unfold bind, addToHistory, ret. simpl. discriminate.
Qed.


End AssignRejections.

(** Assigning car 1 again for December 2024 is refused. *)
Lemma assign_throw_leaves_no_trace_witness :
  sameTables (db Examples.world40)
    (db (fst (assign Examples.isoDateOnly (Examples.noon 2024 11 20)
                (mkAssignRequest 1 1 "2024-12-01") Examples.world40)))
  /\ sameHistory Examples.world40
       (fst (assign Examples.isoDateOnly (Examples.noon 2024 11 20)
               (mkAssignRequest 1 1 "2024-12-01") Examples.world40)).
Proof.
  destruct (assign Examples.isoDateOnly (Examples.noon 2024 11 20)
              (mkAssignRequest 1 1 "2024-12-01") Examples.world40)
    as [w' [r|e]] eqn:E.
  - exfalso. vm_compute in E. discriminate E.
  - destruct (assign_throw_leaves_no_trace Examples.isoDateOnly _ _ _ _ _ E)
      as (Ht & Hh & _).
    split; [exact Ht|exact Hh].
Defined.


(* ===================================================================== *)
(** ** unassign, and undoing it *)
(* ===================================================================== *)

Lemma NoDup_map_inj {A B} (f : A -> B) (l : list A) (x y : A) :
  NoDup (map f l) -> In x l -> In y l -> f x = f y -> x = y.
Proof.
  induction l as [|z l IH]; simpl; intros Hnd Hx Hy E; [contradiction|].
  inversion Hnd as [|? ? Hnot Hnd']; subst.
  destruct Hx as [->|Hx], Hy as [->|Hy].
  - reflexivity.
  - exfalso. apply Hnot. rewrite E. now apply in_map.
  - exfalso. apply Hnot. rewrite <- E. now apply in_map.
  - now apply IH.
Qed.

Lemma deleteAndRestatus_ok now (a a0 : Assignment) (w : World) (c : Car) :
  prisma.findAssignment (a_id a) (db w) = Some a0 ->
  prisma.findCar (a_carId a) (db w) = Some c ->
  exists w',
    deleteAndRestatus now a w = (w', Ok tt)
    /\ undoStack w' = undoStack w /\ redoStack w' = redoStack w
    /\ assignments (db w')
       = filter (fun x => negb (a_id x =? a_id a)) (assignments (db w))
    /\ shops (db w') = shops (db w)
    /\ scenarios (db w') = scenarios (db w)
    /\ assignmentSeq (db w') = assignmentSeq (db w)
    /\ prisma.findCar (a_carId a) (db w') <> None
    /\ (prisma.countCar (a_carId a) (db w') = 0 ->
        statusOfCar (a_carId a) (db w') = Some "unscheduled"%string)
    /\ (prisma.countCar (a_carId a) (db w') <> 0 -> cars (db w') = cars (db w)).
Proof.
  intros Hfind Hcar. unfold deleteAndRestatus. unfold bind at 1.
  unfold prisma.deleteAssignment. rewrite Hfind.
  unfold bind at 1. unfold readDb at 1.
  set (w1 := withDb w _).
  assert (Hcar1 : prisma.findCar (a_carId a) (db w1) = Some c) by exact Hcar.
  destruct (prisma.countCar (a_carId a) (db w1) =? 0) eqn:E0.
  - unfold bind at 1. rewrite (updateCarStatus_found _ _ _ _ _ Hcar1).
    unfold ret. eexists. split; [reflexivity|].
    cbn [fst db undoStack redoStack withDb]. repeat split.
    + unfold prisma.findCar. simpl.
      rewrite find_update_car; [discriminate|reflexivity|].
      unfold prisma.findCar in Hcar. congruence.
    + intros _. unfold statusOfCar, prisma.findCar. simpl.
      rewrite find_update_car; [reflexivity|reflexivity|].
      unfold prisma.findCar in Hcar. congruence.
    + intros Hne. apply Z.eqb_eq in E0. exfalso. apply Hne. exact E0.
  - unfold ret. exists w1. split; [reflexivity|]. repeat split.
    + rewrite Hcar1. discriminate.
    + intros H0. rewrite H0 in E0. discriminate E0.
Qed.

Lemma recreateAndRestatus_ok now (a : Assignment) (w : World) (c : Car) (s : Shop) :
  (forall x, In x (assignments (db w)) -> a_id x <= assignmentSeq (db w)) ->
  prisma.findByCarMonth (a_carId a) (a_month a) (db w) = None ->
  prisma.findCar (a_carId a) (db w) = Some c ->
  prisma.findShop (a_shopId a) (db w) = Some s ->
  exists w',
    recreateAndRestatus now a w = (w', Ok tt)
    /\ undoStack w' = undoStack w /\ redoStack w' = redoStack w
    /\ assignments (db w')
       = assignments (db w)
         ++ [mkAssignment (assignmentSeq (db w) + 1) (a_carId a) (a_shopId a)
               (a_month a) now now]
    /\ assignmentSeq (db w') = assignmentSeq (db w) + 1
    /\ shops (db w') = shops (db w)
    /\ statusOfCar (a_carId a) (db w') = Some "scheduled"%string.
Proof.
  intros Hseq Hex Hcar Hshop. unfold recreateAndRestatus. unfold bind at 1.
  rewrite (createAssignment_fresh now _ _ _ w c s Hseq Hex Hcar Hshop).
  unfold bind at 1.
  match goal with
  | |- context [prisma.updateCarStatus ?n ?i ?st ?x] =>
      assert (Hup : prisma.findCar i (db x) = Some c) by exact Hcar
  end.
  rewrite (updateCarStatus_found _ _ _ _ _ Hup). unfold ret.
  eexists. split; [reflexivity|].
  cbn [fst db undoStack redoStack withDb]. repeat split.
  unfold statusOfCar, prisma.findCar. simpl.
  rewrite find_update_car; [reflexivity|reflexivity|].
  unfold prisma.findCar in Hcar. congruence.
Qed.

Lemma findAssignment_id (id : Z) (d : Db) (a : Assignment) :
  prisma.findAssignment id d = Some a -> In a (assignments d) /\ a_id a = id.
Proof.
  unfold prisma.findAssignment. intros H. apply find_some in H.
  destruct H as [Hin E]. apply Z.eqb_eq in E. now split.
Qed.

Lemma findAssignment_removed (id : Z) (l : list Assignment) :
  find (fun x => a_id x =? id) (filter (fun x => negb (a_id x =? id)) l) = None.
Proof.
  induction l as [|x l IH]; simpl; [reflexivity|].
  destruct (a_id x =? id) eqn:E; simpl; [exact IH|now rewrite E].
Qed.

(** What unassign does when the assignment exists. *)
Lemma unassign_effect now id (w : World) (a : Assignment) :
  ledgerInv (db w) ->
  prisma.findAssignment id (db w) = Some a ->
  exists w',
    unassign now id w = (w', Ok tt)
    /\ assignments (db w')
       = filter (fun x => negb (a_id x =? id)) (assignments (db w))
    /\ shops (db w') = shops (db w)
    /\ assignmentSeq (db w') = assignmentSeq (db w)
    /\ prisma.findCar (a_carId a) (db w') <> None
    /\ (prisma.countCar (a_carId a) (db w') = 0 ->
        statusOfCar (a_carId a) (db w') = Some "unscheduled"%string)
    /\ (prisma.countCar (a_carId a) (db w') <> 0 -> cars (db w') = cars (db w))
    /\ undoStack w' = pushCapped (undoStack w) (mkAction delete a now)
    /\ redoStack w' = [].
Proof.
  intros (_ & _ & _ & Hfk) Hfind.
  destruct (findAssignment_id _ _ _ Hfind) as [Hin Hid].
  destruct (Hfk a Hin) as [Hcar _].
  destruct (prisma.findCar (a_carId a) (db w)) as [c|] eqn:Ecar; [|congruence].
  unfold unassign. unfold bind at 1. unfold readDb at 1. rewrite Hfind.
  unfold bind at 1. unfold addToHistory at 1.
  set (w1 := mkWorld _ _ _).
  assert (Hf1 : prisma.findAssignment (a_id a) (db w1) = Some a).
  { rewrite Hid. exact Hfind. }
  destruct (deleteAndRestatus_ok now a a w1 c Hf1 Ecar)
    as (w' & Hrun & Hu & Hr & Ha & Hs & _ & Hq & Hc' & H0 & Hn0).
  exists w'. rewrite Hid in Ha. repeat split; assumption.
Qed.


Section UnassignThenUndo.

(** unassign, then undo, then redo, on a ledger that satisfies the
    constraints. *)
Lemma unassign_undo_redo now now2 now3 id (w : World) (a : Assignment) :
  ledgerInv (db w) ->
  prisma.findAssignment id (db w) = Some a ->
  exists w1 w2 sizes,
    unassign now id w = (w1, Ok tt)
    /\ undo now2 w1 = (w2, Ok sizes)
    /\ assignments (db w2)
       = filter (fun x => negb (a_id x =? id)) (assignments (db w))
         ++ [mkAssignment (assignmentSeq (db w) + 1) (a_carId a) (a_shopId a)
               (a_month a) now2 now2]
    /\ statusOfCar (a_carId a) (db w2) = Some "scheduled"%string
    /\ redoStack w2 = [mkAction delete a now]
    /\ redo now3 w2
       = (mkWorld (db w2) (undoStack w2 ++ [mkAction delete a now]) [],
          Throw (PrismaError P2025)).
Proof.
  intros Hinv Hfind.
  destruct (unassign_effect now id w a Hinv Hfind)
    as (w1 & Hrun & Ha & Hs & Hq & Hc1 & _ & _ & Hu & Hr).
  destruct Hinv as ((Hseq & _ & _) & Hids & Hcm & Hfk).
  destruct (findAssignment_id _ _ _ Hfind) as [Hin Hid].
  destruct (Hfk a Hin) as [_ Hshop].
  destruct (prisma.findShop (a_shopId a) (db w)) as [s|] eqn:Eshop; [|congruence].
  destruct (prisma.findCar (a_carId a) (db w1)) as [c1|] eqn:Ecar1; [|congruence].
  destruct (pop_pushCapped (undoStack w) (mkAction delete a now)) as [rest Hpop].
  rewrite <- Hu in Hpop.
  exists w1. unfold undo. rewrite Hpop, Hr.
  cbn [act_type act_assignment app].
  set (w1' := mkWorld (db w1) rest [mkAction delete a now]).
  assert (Hex : prisma.findByCarMonth (a_carId a) (a_month a) (db w1') = None).
  { unfold prisma.findByCarMonth. cbn [db w1']. rewrite Ha.
    destruct (find _ (filter _ _)) as [x|] eqn:E; [|reflexivity].
    apply find_some in E. destruct E as [Hx E].
    apply filter_In in Hx. destruct Hx as [Hx Hne].
    apply andb_true_iff in E. destruct E as [E1 E2].
    apply Z.eqb_eq in E1. apply date_eqb_eq in E2.
    assert (x = a).
    { apply (NoDup_map_inj carMonth (assignments (db w))); try assumption.
      unfold carMonth. now rewrite E1, E2. }
    subst x. rewrite Hid, Z.eqb_refl in Hne. discriminate Hne. }
  assert (Hseq1 : forall x, In x (assignments (db w1')) ->
                            a_id x <= assignmentSeq (db w1')).
  { cbn [db w1']. rewrite Ha, Hq. intros x Hx. apply filter_In in Hx.
    now apply Hseq. }
  assert (Hshop1 : prisma.findShop (a_shopId a) (db w1') = Some s).
  { unfold prisma.findShop in *. cbn [db w1']. now rewrite Hs. }
  destruct (recreateAndRestatus_ok now2 a w1' c1 s Hseq1 Hex Ecar1 Hshop1)
    as (w2 & Hrec & Hu2 & Hr2 & Ha2 & Hq2 & _ & Hst2).
  unfold bind at 1. rewrite Hrec.
  eexists. eexists. split; [exact Hrun|]. split; [reflexivity|].
  cbn [fst]. cbn [db w1'] in Ha2, Hq2. cbn [redoStack undoStack w1'] in Hu2, Hr2.
  rewrite Ha, Hq in Ha2.
  split; [exact Ha2|]. split; [exact Hst2|]. split; [exact Hr2|].
  unfold redo. rewrite Hr2. cbn [pop act_type act_assignment].
  unfold bind at 1. unfold deleteAndRestatus. unfold bind at 1.
  unfold prisma.deleteAssignment, prisma.findAssignment. cbn [db].
  rewrite Ha2.
  assert (Hnone : find (fun x => a_id x =? a_id a)
                    (filter (fun x => negb (a_id x =? id)) (assignments (db w))
                     ++ [mkAssignment (assignmentSeq (db w) + 1) (a_carId a)
                           (a_shopId a) (a_month a) now2 now2]) = None).
  { rewrite find_app_none.
    - simpl. destruct (assignmentSeq (db w) + 1 =? a_id a) eqn:E; [|reflexivity].
      apply Z.eqb_eq in E. specialize (Hseq a Hin). lia.
    - rewrite Hid. apply findAssignment_removed. }
  rewrite Hnone. reflexivity.
Qed.

(** X5.  undo right after an unassign puts the car back on the ledger: an
    assignment for the same car, shop and month is stored again and the car
    is 'scheduled'; the row is a new one, with the next id of the sequence
    and the time of the undo as creation time, while all other rows are
    untouched. *)
Theorem undo_of_unassign_reinserts now now2 id (w : World) (a : Assignment) :
  ledgerInv (db w) ->
  prisma.findAssignment id (db w) = Some a ->
  exists w1 w2 sizes,
    unassign now id w = (w1, Ok tt)
    /\ undo now2 w1 = (w2, Ok sizes)
    /\ assignments (db w2)
       = filter (fun x => negb (a_id x =? id)) (assignments (db w))
         ++ [mkAssignment (assignmentSeq (db w) + 1) (a_carId a) (a_shopId a)
               (a_month a) now2 now2]
    /\ statusOfCar (a_carId a) (db w2) = Some "scheduled"%string.
Proof.
  intros Hinv Hfind.
  destruct (unassign_undo_redo now now2 now2 id w a Hinv Hfind)
    as (w1 & w2 & sizes & H1 & H2 & H3 & H4 & _).
  exists w1, w2, sizes. repeat split; assumption.
Qed.

(** X6.  After unassign and undo, redo cannot repeat the unassign: the
    logged action names the id of the removed row, the re-inserted row has
    another id, so the delete finds no record and redo throws (Prisma
    P2025).  The ledger is left as it is, but the action has already been
    moved from the redo array to the undo array. *)
Theorem redo_of_unassign_throws now now2 now3 id (w : World) (a : Assignment) :
  ledgerInv (db w) ->
  prisma.findAssignment id (db w) = Some a ->
  exists w1 w2 sizes,
    unassign now id w = (w1, Ok tt)
    /\ undo now2 w1 = (w2, Ok sizes)
    /\ redo now3 w2
       = (mkWorld (db w2) (undoStack w2 ++ [mkAction delete a now]) [],
          Throw (PrismaError P2025)).
Proof.
  intros Hinv Hfind.
  destruct (unassign_undo_redo now now2 now3 id w a Hinv Hfind)
    as (w1 & w2 & sizes & H1 & H2 & _ & _ & _ & H6).
  exists w1, w2, sizes. repeat split; assumption.
Qed.

End UnassignThenUndo.

(* ===================================================================== *)
(** ** The two history arrays under undo and redo *)
(* ===================================================================== *)

Lemma undo_stacks now (w : World) (action : HistoryAction) (rest : list HistoryAction) :
  pop (undoStack w) = Some (action, rest) ->
  undoStack (fst (undo now w)) = rest
  /\ redoStack (fst (undo now w)) = redoStack w ++ [action].
Proof.
  intros E. unfold undo. rewrite E.
  destruct (keeps_reverse now action true
              (mkWorld (db w) rest (redoStack w ++ [action]))) as [K1 K2].
  split; [exact K1|exact K2].
Qed.

Lemma redo_stacks now (w : World) (action : HistoryAction) (rest : list HistoryAction) :
  pop (redoStack w) = Some (action, rest) ->
  undoStack (fst (redo now w)) = undoStack w ++ [action]
  /\ redoStack (fst (redo now w)) = rest.
Proof.
  intros E. unfold redo. rewrite E.
  destruct (keeps_reverse now action false
              (mkWorld (db w) (undoStack w ++ [action]) rest)) as [K1 K2].
  split; [exact K1|exact K2].
Qed.

(** X7.  On the two arrays, undo and redo are inverse to each other,
    whatever happens to the ledger: undo moves the last action of the undo
    array to the end of the redo array, redo moves it back, also when the
    reversal or the re-application throws. *)
Theorem undo_redo_restore_the_arrays now now' (w : World) :
  (undoStack w <> [] ->
   undoStack (fst (redo now' (fst (undo now w)))) = undoStack w
   /\ redoStack (fst (redo now' (fst (undo now w)))) = redoStack w)
  /\ (redoStack w <> [] ->
      undoStack (fst (undo now' (fst (redo now w)))) = undoStack w
      /\ redoStack (fst (undo now' (fst (redo now w)))) = redoStack w).
Proof.
  split.
  - intros Hne. destruct (pop (undoStack w)) as [[action rest]|] eqn:E.
    2:{ apply pop_nil_iff in E. contradiction. }
    destruct (undo_stacks now w action rest E) as [Hu Hr].
    assert (E2 : pop (redoStack (fst (undo now w))) = Some (action, redoStack w)).
    { rewrite Hr. apply pop_snoc. }
    destruct (redo_stacks now' _ _ _ E2) as [Hu2 Hr2].
    rewrite Hu2, Hr2, Hu. split; [|reflexivity].
    symmetry. now apply pop_some.
  - intros Hne. destruct (pop (redoStack w)) as [[action rest]|] eqn:E.
    2:{ apply pop_nil_iff in E. contradiction. }
    destruct (redo_stacks now w action rest E) as [Hu Hr].
    assert (E2 : pop (undoStack (fst (redo now w))) = Some (action, undoStack w)).
    { rewrite Hu. apply pop_snoc. }
    destruct (undo_stacks now' _ _ _ E2) as [Hu2 Hr2].
    rewrite Hu2, Hr2, Hr. split; [reflexivity|].
    symmetry. now apply pop_some.
Qed.

Lemma length_zero_nil {A} (l : list A) :
  (Z.of_nat (List.length l) >? 0) = false <-> l = [].
Proof.
  destruct l as [|x l]; simpl; split; intros H; try reflexivity; discriminate.
Qed.

(** X8.  GET /history tells what undo and redo will do: undo throws
    'Nothing to undo' (400), changing nothing, exactly when canUndo is
    false, and redo throws 'Nothing to redo' (400) exactly when canRedo is
    false; and the sizes that a successful undo reports are the sizes of
    /history before the call with one action moved over. *)
Theorem history_tells_what_undo_does now (w : World) :
  (canUndo (historyState w) = false <->
   undo now w = (w, Throw (HttpError "Nothing to undo" 400)))
  /\ (canRedo (historyState w) = false <->
      redo now w = (w, Throw (HttpError "Nothing to redo" 400)))
  /\ (forall w' sizes,
        undo now w = (w', Ok sizes) ->
        undoStackSize sizes = undoStackSize (hs_sizes (historyState w)) - 1
        /\ redoStackSize sizes = redoStackSize (hs_sizes (historyState w)) + 1
        /\ sizes = hs_sizes (historyState w')).
Proof.
  split; [|split].
  - unfold historyState; cbn [canUndo]. rewrite length_zero_nil. split.
    + intros E. unfold undo. rewrite E. reflexivity.
    + intros H. destruct (pop (undoStack w)) as [[action rest]|] eqn:E.
      * exfalso. unfold undo in H. rewrite E in H.
        pose proof (undo_stacks now w action rest E) as [_ Hr].
        unfold undo in Hr. rewrite E in Hr. rewrite H in Hr. simpl in Hr.
        apply (f_equal (@List.length _)) in Hr. rewrite length_app in Hr.
        simpl in Hr. lia.
      * now apply pop_nil_iff.
  - unfold historyState; cbn [canRedo]. rewrite length_zero_nil. split.
    + intros E. now apply redo_empty.
    + intros H. destruct (pop (redoStack w)) as [[action rest]|] eqn:E.
      * exfalso.
        pose proof (redo_stacks now w action rest E) as [Hu _].
        rewrite H in Hu. simpl in Hu.
        apply (f_equal (@List.length _)) in Hu. rewrite length_app in Hu.
        simpl in Hu. lia.
      * now apply pop_nil_iff.
  - intros w' sizes H.
    destruct (pop (undoStack w)) as [[action rest]|] eqn:E.
    2:{ unfold undo in H. rewrite E in H. discriminate H. }
    destruct (undo_stacks now w action rest E) as [Hu Hr].
    rewrite H in Hu, Hr. simpl in Hu, Hr.
    assert (Hs : sizes = stackSizes w').
    { unfold undo in H. rewrite E in H. unfold bind in H.
      destruct (match act_type action with
                | create => deleteAndRestatus now (act_assignment action)
                | update => ret tt
                | delete => recreateAndRestatus now (act_assignment action)
                end _) as [w2 [u|e]]; inversion H; reflexivity. }
    apply pop_some in E.
    subst sizes. unfold historyState, stackSizes.
    cbn [hs_sizes undoStackSize redoStackSize].
    rewrite Hu, Hr, E, !length_app. simpl. repeat split; lia.
Qed.

(* ===================================================================== *)
(** ** evaluate: what a fit result says *)
(* ===================================================================== *)

Lemma scan_fold_overload (capacity : Z) (m : MonthlyData) : forall s,
  0 <= capacity ->
  0 <= maxTotal s ->
  maxOverload s = Z.max 0 (maxTotal s - capacity) ->
  0 <= maxTotal (fold_left (scanStep capacity) m s)
  /\ maxOverload (fold_left (scanStep capacity) m s)
     = Z.max 0 (maxTotal (fold_left (scanStep capacity) m s) - capacity).
Proof.
  induction m as [|[k c] m IH]; intros s Hcap Hpos Hov; simpl.
  - now split.
  - apply IH; [exact Hcap| |].
    + simpl. destruct (current c + scenario c >? maxTotal s) eqn:E; [|exact Hpos].
      apply Z.gtb_lt in E. lia.
    + simpl.
      destruct (current c + scenario c >? maxTotal s) eqn:E1;
        destruct (current c + scenario c >? capacity) eqn:E2;
        try destruct (current c + scenario c - capacity >? maxOverload s) eqn:E3;
        rewrite ?Z.gtb_ltb in *;
        repeat match goal with
               | H : (_ <? _) = true |- _ => apply Z.ltb_lt in H
               | H : (_ <? _) = false |- _ => apply Z.ltb_ge in H
               end; lia.
Qed.

(** X9.  For a shop whose capacity is not negative, the overload that
    evaluate reports is max(0, maxTotal - capacity), and the status is red
    exactly when that overload is positive, i.e. when the busiest month
    holds more than the capacity. *)
Theorem evaluate_overload_formula (now : Date) cur prop (shop : Shop) :
  0 <= shop_capacity shop ->
  fr_overload (fitOf now cur prop shop)
  = Z.max 0 (fr_totalAssigned (fitOf now cur prop shop) - shop_capacity shop)
  /\ (fr_status (fitOf now cur prop shop) = red
      <-> 0 < fr_overload (fitOf now cur prop shop))
  /\ (fr_status (fitOf now cur prop shop) = red
      <-> shop_capacity shop < fr_totalAssigned (fitOf now cur prop shop)).
Proof.
  intros Hcap. unfold fitOf. cbn [fr_overload fr_totalAssigned fr_status].
  destruct (scan_fold_overload (shop_capacity shop)
              (monthlyDataOf shop cur prop) (mkScan 0 0 None) Hcap)
    as [Hpos Hov]; [simpl; lia|simpl; lia|].
  fold (scan (shop_capacity shop) (monthlyDataOf shop cur prop)) in Hpos, Hov.
  set (s := scan (shop_capacity shop) (monthlyDataOf shop cur prop)) in *.
  assert (Hred : statusOfFit (maxTotal s) (shop_capacity shop)
                   (mulConst (divZ (maxTotal s) (shop_capacity shop)) 100) = red
                 <-> shop_capacity shop < maxTotal s).
  { unfold statusOfFit. destruct (maxTotal s >? shop_capacity shop) eqn:E.
    - apply Z.gtb_lt in E. tauto.
    - rewrite Z.gtb_ltb in E. apply Z.ltb_ge in E.
      destruct (geConst _ 80); split; (discriminate || lia). }
  split; [exact Hov|]. split; [|exact Hred].
  rewrite Hred, Hov. lia.
Qed.

Lemma evaluate_overload_formula_witness :
  fr_overload
    (fitOf (Examples.noon 2024 11 20) (assignments Examples.ledger40)
       (Examples.proposedFor 40 11 1 "2024-12-01") Examples.shop50)
  = Z.max 0
      (fr_totalAssigned
         (fitOf (Examples.noon 2024 11 20) (assignments Examples.ledger40)
            (Examples.proposedFor 40 11 1 "2024-12-01") Examples.shop50) - 50).
Proof.
  destruct (evaluate_overload_formula (Examples.noon 2024 11 20)
              (assignments Examples.ledger40)
              (Examples.proposedFor 40 11 1 "2024-12-01") Examples.shop50)
    as [H _]; [vm_compute; discriminate|exact H].
Defined.

(** *** The tallies add up *)

Lemma sumCurrent_mapSet (k : string) (v : Counts) (m : MonthlyData) :
  sumCurrent (mapSet String.eqb k v m)
  = sumCurrent m - current (getOrZero k m) + current v.
Proof.
  unfold getOrZero. induction m as [|[k' v'] m IH]; simpl; [lia|].
  destruct (String.eqb k k'); simpl; [lia|]. rewrite IH. lia.
Qed.

Lemma sumScenario_mapSet (k : string) (v : Counts) (m : MonthlyData) :
  sumScenario (mapSet String.eqb k v m)
  = sumScenario m - scenario (getOrZero k m) + scenario v.
Proof.
  unfold getOrZero. induction m as [|[k' v'] m IH]; simpl; [lia|].
  destruct (String.eqb k k'); simpl; [lia|]. rewrite IH. lia.
Qed.

Lemma in_mapSet (k : string) (v : Counts) (m : MonthlyData) k0 c0 :
  In (k0, c0) (mapSet String.eqb k v m) -> In (k0, c0) m \/ c0 = v.
Proof.
  induction m as [|[k' v'] m IH]; simpl.
  - intros [E|[]]. inversion E. now right.
  - destruct (String.eqb k k'); simpl.
    + intros [E|H]; [inversion E; now right|left; now right].
    + intros [E|H]; [left; now left|].
      destruct (IH H) as [H'|H']; [left; now right|now right].
Qed.

Lemma getOrZero_nonneg (k : string) (m : MonthlyData) :
  nonnegCounts m ->
  0 <= current (getOrZero k m) /\ 0 <= scenario (getOrZero k m).
Proof.
  intros H. unfold getOrZero.
  induction m as [|[k' v'] m IH]; simpl; [lia|].
  destruct (String.eqb k k').
  - apply (H k' v'). now left.
  - apply IH. intros k0 c0 Hin. apply (H k0 c0). now right.
Qed.

Lemma tally_fold_current (l : list Assignment) : forall m,
  nonnegCounts m ->
  nonnegCounts (fold_left addCurrent l m)
  /\ sumCurrent (fold_left addCurrent l m) = sumCurrent m + Z.of_nat (List.length l)
  /\ sumScenario (fold_left addCurrent l m) = sumScenario m.
Proof.
  induction l as [|a l IH]; intros m Hm; simpl.
  - split; [exact Hm|split; lia].
  - destruct (getOrZero_nonneg (substring07 (toISOString (a_month a))) m Hm)
      as [Hc Hs].
    assert (Hm' : nonnegCounts (addCurrent m a)).
    { intros k0 c0 Hin. unfold addCurrent in Hin. apply in_mapSet in Hin.
      destruct Hin as [Hin| ->]; [now apply (Hm k0 c0)|simpl; lia]. }
    destruct (IH _ Hm') as (H1 & H2 & H3). split; [exact H1|].
    rewrite H2, H3. unfold addCurrent.
    rewrite sumCurrent_mapSet, sumScenario_mapSet. simpl. lia.
Qed.

Lemma tally_fold_scenario (l : list ScenarioAssignment) : forall m,
  nonnegCounts m ->
  nonnegCounts (fold_left addScenario l m)
  /\ sumCurrent (fold_left addScenario l m) = sumCurrent m
  /\ sumScenario (fold_left addScenario l m)
     = sumScenario m + Z.of_nat (List.length l).
Proof.
  induction l as [|a l IH]; intros m Hm; simpl.
  - split; [exact Hm|split; lia].
  - destruct (getOrZero_nonneg (substring07 (sa_month a)) m Hm) as [Hc Hs].
    assert (Hm' : nonnegCounts (addScenario m a)).
    { intros k0 c0 Hin. unfold addScenario in Hin. apply in_mapSet in Hin.
      destruct Hin as [Hin| ->]; [now apply (Hm k0 c0)|simpl; lia]. }
    destruct (IH _ Hm') as (H1 & H2 & H3). split; [exact H1|].
    rewrite H2, H3. unfold addScenario.
    rewrite sumCurrent_mapSet, sumScenario_mapSet. simpl. lia.
Qed.

Lemma entry_le_sums (m : MonthlyData) :
  nonnegCounts m ->
  0 <= sumCurrent m /\ 0 <= sumScenario m
  /\ forall k c, In (k, c) m -> totalOf c <= sumCurrent m + sumScenario m.
Proof.
  induction m as [|[k' v'] m IH]; intros H; simpl.
  - split; [lia|]. split; [lia|]. intros k c [].
  - destruct (H k' v' (or_introl eq_refl)) as [Hc Hs].
    destruct IH as (H1 & H2 & H3).
    { intros k0 c0 Hin. apply (H k0 c0). now right. }
    split; [lia|]. split; [lia|].
    intros k c [E|Hin].
    + inversion E; subst. unfold totalOf. lia.
    + specialize (H3 k c Hin). lia.
Qed.

Lemma scan_fold_max (capacity : Z) (m : MonthlyData) : forall s,
  maxTotal s <= maxTotal (fold_left (scanStep capacity) m s)
  /\ (forall k c, In (k, c) m ->
        totalOf c <= maxTotal (fold_left (scanStep capacity) m s))
  /\ (maxTotal (fold_left (scanStep capacity) m s) = maxTotal s
      \/ exists k c, In (k, c) m
           /\ maxTotal (fold_left (scanStep capacity) m s) = totalOf c).
Proof.
  induction m as [|[k' c'] m IH]; intros s; cbn [fold_left].
  - split; [lia|]. split; [intros k c []|now left].
  - destruct (IH (scanStep capacity s (k', c'))) as (H1 & H2 & H3).
    assert (Hstep : maxTotal s <= maxTotal (scanStep capacity s (k', c'))
                    /\ totalOf c' <= maxTotal (scanStep capacity s (k', c'))
                    /\ (maxTotal (scanStep capacity s (k', c')) = maxTotal s
                        \/ maxTotal (scanStep capacity s (k', c')) = totalOf c')).
    { unfold totalOf. simpl.
      destruct (current c' + scenario c' >? maxTotal s) eqn:E.
      - apply Z.gtb_lt in E. split; [lia|]. split; [lia|now right].
      - rewrite Z.gtb_ltb in E. apply Z.ltb_ge in E.
        split; [lia|]. split; [lia|now left]. }
    destruct Hstep as (S1 & S2 & S3).
    split; [|split].
    + lia.
    + intros k c [E|Hin]; [inversion E; subst; lia|now apply (H2 k c)].
    + destruct H3 as [H3|(k & c & Hin & H3)].
      * destruct S3 as [S3|S3]; [left; lia|].
        right. exists k', c'. split; [now left|lia].
      * right. exists k, c. split; [now right|exact H3].
Qed.

(** X10.  In a fit result the monthly tallies add up to the reported
    totals: the committed counts over all months of the shop sum to
    currentAssigned and the proposed counts to scenarioAssigned; and
    totalAssigned is the load of the busiest month: no month exceeds it, and
    it lies between 0 and currentAssigned + scenarioAssigned. *)
Theorem evaluate_tallies_add_up (now : Date) cur prop (shop : Shop) :
  sumCurrent (monthlyDataOf shop cur prop)
  = fr_currentAssigned (fitOf now cur prop shop)
  /\ sumScenario (monthlyDataOf shop cur prop)
     = fr_scenarioAssigned (fitOf now cur prop shop)
  /\ (forall k c, In (k, c) (monthlyDataOf shop cur prop) ->
        totalOf c <= fr_totalAssigned (fitOf now cur prop shop))
  /\ 0 <= fr_totalAssigned (fitOf now cur prop shop)
       <= fr_currentAssigned (fitOf now cur prop shop)
          + fr_scenarioAssigned (fitOf now cur prop shop).
Proof.
  assert (H0 : nonnegCounts []) by (intros k c []).
  destruct (tally_fold_current (currentOf shop cur) [] H0) as (N1 & C1 & S1).
  destruct (tally_fold_scenario (scenarioOf shop prop) _ N1) as (N2 & C2 & S2).
  fold (monthlyDataOf shop cur prop) in N2, C2, S2.
  rewrite C1 in C2. rewrite S1 in S2. simpl in C2, S2.
  destruct (entry_le_sums _ N2) as (P1 & P2 & P3).
  destruct (scan_fold_max (shop_capacity shop) (monthlyDataOf shop cur prop)
              (mkScan 0 0 None)) as (M1 & M2 & M3).
  fold (scan (shop_capacity shop) (monthlyDataOf shop cur prop)) in M1, M2, M3.
  unfold fitOf.
  cbn [fr_currentAssigned fr_scenarioAssigned fr_totalAssigned].
  simpl in M1, M3.
  split; [exact C2|]. split; [exact S2|]. split; [exact M2|].
  split; [exact M1|].
  destruct M3 as [M3|(k & c & Hin & M3)].
  - rewrite M3. lia.
  - rewrite M3. specialize (P3 k c Hin). lia.
Qed.

(** *** earliestSlot *)

Lemma nextMonthKey_truthy (now : Date) : truthy (Some (nextMonthKey now)) = true.
Proof.
  unfold nextMonthKey, substring07, toISOString, pad4, pad2. reflexivity.
Qed.

Lemma scan_fold_slot (capacity : Z) (m : MonthlyData) : forall s k,
  earliestSlot (fold_left (scanStep capacity) m s) = Some k ->
  earliestSlot s = Some k
  \/ exists c, In (k, c) m /\ totalOf c < capacity.
Proof.
  induction m as [|[k' c'] m IH]; intros s k; cbn [fold_left].
  - intros H. now left.
  - intros H. destruct (IH _ _ H) as [H1|(c & Hin & Hc)].
    + unfold scanStep in H1. cbn [earliestSlot] in H1.
      destruct ((current c' + scenario c' <? capacity)
                && negb (truthy (earliestSlot s))) eqn:E.
      * inversion H1; subst. right. exists c'. split; [now left|].
        apply andb_true_iff in E. destruct E as [E _].
        apply Z.ltb_lt in E. exact E.
      * now left.
    + right. exists c. split; [now right|exact Hc].
Qed.


(** *** The aggregate *)

Lemma countStatus_total (l : list FitResult) :
  countStatus green l + countStatus yellow l + countStatus red l
  = Z.of_nat (List.length l).
Proof.
  unfold countStatus. induction l as [|r l IH]; [reflexivity|].
  cbn [filter List.length].
  destruct (fr_status r); cbn [FitStatus_eqb List.length]; lia.
Qed.

Lemma countStatus_bounds (st : FitStatus) (l : list FitResult) :
  0 <= countStatus st l <= Z.of_nat (List.length l).
Proof.
  pose proof (countStatus_total l) as T.
  assert (P : forall s, 0 <= countStatus s l) by (intros s; unfold countStatus; lia).
  pose proof (P green). pose proof (P yellow). pose proof (P red).
  destruct st; lia.
Qed.

Lemma inject_Z_nonneg (z : Z) : 0 <= z -> (0 <= inject_Z z)%Q.
Proof. intros H. change 0%Q with (inject_Z 0). now rewrite <- Zle_Qle. Qed.

Lemma inject_Z_pos (z : Z) : 0 < z -> (0 < inject_Z z)%Q.
Proof. intros H. change 0%Q with (inject_Z 0). now rewrite <- Zlt_Qlt. Qed.

Lemma percent_bounds (g n : Z) :
  0 <= g <= n -> 0 < n ->
  (0 <= Qred (inject_Z (roundQ (Qred (Qred (Qred (inject_Z g / inject_Z n) * 100) * 100))) / 100) <= 100)%Q.
Proof.
  intros Hg Hn.
  set (p := Qred (Qred (inject_Z g / inject_Z n) * 100)).
  assert (Hp : (0 <= p <= 100)%Q).
  { unfold p. repeat rewrite Qred_correct.
    pose proof (inject_Z_pos n Hn) as Hn'.
    split.
    - apply Qmult_le_0_compat; [|discriminate].
      apply Qle_shift_div_l; [exact Hn'|]. rewrite Qmult_0_l.
      apply inject_Z_nonneg. lia.
    - apply (Qle_trans _ (1 * 100)); [|discriminate].
      apply Qmult_le_compat_r; [|discriminate].
      apply Qle_shift_div_r; [exact Hn'|]. rewrite Qmult_1_l.
      rewrite <- Zle_Qle. lia. }
  assert (Hr : 0 <= roundQ (Qred (p * 100)) <= 10000).
  { unfold roundQ. destruct Hp as [Hp0 Hp1]. split.
    - change 0 with (Qfloor 0). apply Qfloor_resp_le. rewrite Qred_correct.
      apply (Qle_trans _ (0 * 100 + (1 # 2))); [discriminate|].
      apply Qplus_le_l. apply Qmult_le_compat_r; [exact Hp0|discriminate].
    - assert (Hlt : (Qred (p * 100) + (1 # 2) < inject_Z 10001)%Q).
      { rewrite Qred_correct.
        apply (Qle_lt_trans _ (100 * 100 + (1 # 2))); [|reflexivity].
        apply Qplus_le_l. apply Qmult_le_compat_r; [exact Hp1|discriminate]. }
      pose proof (Qfloor_le (Qred (p * 100) + (1 # 2))) as Hfl.
      assert (Hz : (inject_Z (Qfloor (Qred (p * 100) + (1 # 2))) < inject_Z 10001)%Q).
      { eapply Qle_lt_trans; [exact Hfl|exact Hlt]. }
      rewrite <- Zlt_Qlt in Hz. lia. }
  rewrite Qred_correct. destruct Hr as [Hr0 Hr1]. split.
  - apply Qle_shift_div_l; [reflexivity|]. rewrite Qmult_0_l.
    now apply inject_Z_nonneg.
  - apply Qle_shift_div_r; [reflexivity|].
    change (100 * 100)%Q with (inject_Z 10000). now rewrite <- Zle_Qle.
Qed.

Lemma round2_percent_bounds (g n : Z) :
  0 <= g <= n -> 0 < n ->
  exists q, round2 (mulConst (divZ g n) 100) = Finite q /\ (0 <= q <= 100)%Q.
Proof.
  intros Hg Hn. unfold divZ.
  destruct (n =? 0) eqn:E; [apply Z.eqb_eq in E; lia|].
  unfold mulConst, round2, mathRound, mulConst, divConst.
  eexists. split; [reflexivity|]. now apply percent_bounds.
Qed.


(** *** What evaluate does not look at *)

Lemma scenarioOf_withCar (f : ScenarioAssignment -> Z) (shop : Shop)
    (l : list ScenarioAssignment) :
  scenarioOf shop (map (withCar f) l) = map (withCar f) (scenarioOf shop l).
Proof.
  unfold scenarioOf. induction l as [|a l IH]; simpl; [reflexivity|].
  destruct (sa_shopId a =? shop_id shop); simpl; now rewrite IH.
Qed.

Lemma fold_addScenario_withCar (f : ScenarioAssignment -> Z)
    (l : list ScenarioAssignment) : forall m,
  fold_left addScenario (map (withCar f) l) m = fold_left addScenario l m.
Proof.
  induction l as [|a l IH]; intros m; simpl; [reflexivity|]. apply IH.
Qed.

Lemma scenarioOf_unknown_shop (d : Db) (shop : Shop)
    (extra : list ScenarioAssignment) :
  In shop (shops d) ->
  (forall p, In p extra -> prisma.findShop (sa_shopId p) d = None) ->
  scenarioOf shop extra = [].
Proof.
  intros Hin Hnone. unfold scenarioOf.
  induction extra as [|p extra IH]; simpl; [reflexivity|].
  destruct (sa_shopId p =? shop_id shop) eqn:E.
  - exfalso. specialize (Hnone p (or_introl eq_refl)).
    unfold prisma.findShop in Hnone.
    pose proof (find_none _ _ Hnone shop Hin) as Hf. simpl in Hf.
    apply Z.eqb_eq in E. rewrite E, Z.eqb_refl in Hf. discriminate Hf.
  - apply IH. intros q Hq. apply Hnone. now right.
Qed.

(** X13.  evaluate does not validate the proposal.  The car ids of the
    proposed assignments are never looked at: replacing them by any others
    gives the same answer (so the same car proposed twice counts twice).
    And proposed assignments for shops that do not exist are dropped
    without an error: adding them to the proposal gives the same answer. *)
Theorem evaluate_ignores_cars_and_unknown_shops (now : Date) (d : Db)
    (proposed : list ScenarioAssignment) :
  (forall f, evaluation now d (map (withCar f) proposed)
             = evaluation now d proposed)
  /\ (forall extra,
        (forall p, In p extra -> prisma.findShop (sa_shopId p) d = None) ->
        evaluation now d (proposed ++ extra) = evaluation now d proposed).
Proof.
  split.
  - intros f.
    assert (F : forall shop,
              fitOf now (assignments d) (map (withCar f) proposed) shop
              = fitOf now (assignments d) proposed shop).
    { intros shop. unfold fitOf, monthlyDataOf.
      rewrite scenarioOf_withCar, fold_addScenario_withCar, length_map.
      reflexivity. }
    unfold evaluation. rewrite (map_ext _ _ F). reflexivity.
  - intros extra Hnone.
    assert (F : forall shop, In shop (shops d) ->
              fitOf now (assignments d) (proposed ++ extra) shop
              = fitOf now (assignments d) proposed shop).
    { intros shop Hin. unfold fitOf, monthlyDataOf.
      assert (S : scenarioOf shop (proposed ++ extra) = scenarioOf shop proposed).
      { unfold scenarioOf. rewrite filter_app.
        fold (scenarioOf shop extra).
        rewrite (scenarioOf_unknown_shop d shop extra Hin Hnone).
        apply app_nil_r. }
      rewrite S. reflexivity. }
    unfold evaluation. rewrite (map_ext_in _ _ _ F). reflexivity.
Qed.

(* ===================================================================== *)
(** ** utilization and the warning of assign *)
(* ===================================================================== *)

Section UtilizationFacts.

Variable newDate : string -> option Date.

(** X14.  The warning of assign and GET /utilization agree: after a
    successful assign, the utilization of the same month reports the shop
    with one assignment more than before the call, and with isOverCapacity
    true exactly when the answer of assign carried a warning. *)
Theorem utilization_agrees_with_warning now req (w w' : World)
    (r : AssignResponse) (shop : Shop) (monthDate : Date) :
  assign newDate now req w = (w', Ok r) ->
  prisma.findShop (req_shopId req) (db w) = Some shop ->
  newDate (req_month req) = Some monthDate ->
  exists answer,
    utilization newDate (Some (req_month req)) w' = (w', Ok answer)
    /\ In (utilizationRow monthDate (db w') shop) (ua_data answer)
    /\ ur_assigned (utilizationRow monthDate (db w') shop)
       = ur_assigned (utilizationRow monthDate (db w) shop) + 1
    /\ (ur_isOverCapacity (utilizationRow monthDate (db w') shop) = true
        <-> res_warning r <> None).
Proof.
  intros Hrun Eshop Edate.
  destruct (assign_ok_inv newDate _ _ _ _ _ Hrun)
    as (car & shop0 & md & _ & Eshop0 & Edate0 & _ & Hdata & Hwarn & Hdb & _ & _).
  assert (shop0 = shop) by congruence.
  assert (md = monthDate) by congruence. subst shop0 md.
  assert (Hm : String.eqb (req_month req) EmptyString = false).
  { unfold assign in Hrun.
    destruct ((req_carId req =? 0) || (req_shopId req =? 0)
              || String.eqb (req_month req) EmptyString) eqn:G;
      [discriminate Hrun|].
    apply orb_false_iff in G. tauto. }
  assert (Hid : shop_id shop = req_shopId req).
  { unfold prisma.findShop in Eshop. apply find_some in Eshop.
    destruct Eshop as [_ E]. now apply Z.eqb_eq in E. }
  assert (Hin : In shop (shops (db w'))).
  { rewrite Hdb. simpl. unfold prisma.findShop in Eshop.
    apply find_some in Eshop. tauto. }
  assert (Hcount : prisma.countShopMonth (shop_id shop) monthDate (db w')
                   = prisma.countShopMonth (shop_id shop) monthDate (db w) + 1).
  { rewrite Hdb, Hid, Hdata.
    exact (countShopMonth_snoc (db w)
             (mkAssignment (assignmentSeq (db w) + 1) (req_carId req)
                (req_shopId req) monthDate now now)). }
  unfold utilization. rewrite Hm, Edate. unfold readDb.
  eexists. split; [reflexivity|]. cbn [ua_data].
  split; [now apply in_map|]. split.
  - unfold utilizationRow. cbn [ur_assigned]. exact Hcount.
  - unfold utilizationRow. cbn [ur_isOverCapacity]. rewrite Hcount, Hwarn, Hid.
    destruct (prisma.countShopMonth (req_shopId req) monthDate (db w)
              >=? shop_capacity shop) eqn:E.
    + apply Z.geb_le in E. split; [discriminate|]. intros _.
      apply Z.gtb_lt. lia.
    + rewrite Z.geb_leb in E. apply Z.leb_gt in E. split; [|congruence].
      intros H. apply Z.gtb_lt in H. lia.
Qed.

End UtilizationFacts.

Lemma utilization_agrees_with_warning_witness :
  exists w' r answer,
    assign Examples.isoDateOnly (Examples.noon 2024 11 20)
      (mkAssignRequest 51 1 "2024-12-01") (mkWorld Examples.ledger50 [] [])
    = (w', Ok r)
    /\ utilization Examples.isoDateOnly (Some "2024-12-01"%string) w'
       = (w', Ok answer)
    /\ ur_isOverCapacity (utilizationRow Examples.dec2024 (db w') Examples.shop50)
       = true.
Proof.
  destruct (assign Examples.isoDateOnly (Examples.noon 2024 11 20)
              (mkAssignRequest 51 1 "2024-12-01") (mkWorld Examples.ledger50 [] []))
    as [w' [r|e]] eqn:E.
  - destruct (utilization_agrees_with_warning Examples.isoDateOnly _ _ _ _ r
                Examples.shop50 Examples.dec2024 E eq_refl eq_refl)
      as (answer & Hu & _ & _ & Hover).
    exists w', r, answer. split; [reflexivity|]. split; [exact Hu|].
    apply Hover. vm_compute in E. inversion E. discriminate.
  - exfalso. vm_compute in E. discriminate E.
Defined.

(* ===================================================================== *)
(** ** apply: what a successful call has written *)
(* ===================================================================== *)

Lemma find_update_car_other (id c : Z) (c' : Car) (l : list Car) :
  car_id c' = id -> c <> id ->
  find (fun x => car_id x =? c)
       (map (fun x => if car_id x =? id then c' else x) l)
  = find (fun x => car_id x =? c) l.
Proof.
  intros Hid Hne. induction l as [|x l IH]; simpl; [reflexivity|].
  destruct (car_id x =? id) eqn:E.
  - apply Z.eqb_eq in E.
    assert (E1 : (car_id c' =? c) = false) by (apply Z.eqb_neq; congruence).
    assert (E2 : (car_id x =? c) = false) by (apply Z.eqb_neq; congruence).
    now rewrite E1, E2.
  - destruct (car_id x =? c); [reflexivity|exact IH].
Qed.

Lemma updateCarStatus_scheduled now id (w w1 : World) (res : Result Car) :
  prisma.updateCarStatus now id "scheduled" w = (w1, res) ->
  assignments (db w1) = assignments (db w)
  /\ shops (db w1) = shops (db w)
  /\ (forall c, statusOfCar c (db w) = Some "scheduled"%string ->
                statusOfCar c (db w1) = Some "scheduled"%string)
  /\ (forall x, res = Ok x -> statusOfCar id (db w1) = Some "scheduled"%string).
Proof.
  unfold prisma.updateCarStatus.
  destruct (prisma.findCar id (db w)) as [c0|] eqn:E.
  2:{ intros H; inversion H; subst.
      split; [reflexivity|]. split; [reflexivity|]. split; [auto|].
      intros x Hx. discriminate Hx. }
  intros H; inversion H; subst; clear H.
  assert (Hself : statusOfCar id
            (db (withDb w (withCars (db w)
               (map (fun x => if car_id x =? id then mkCar id "scheduled" now else x)
                    (cars (db w))))))
          = Some "scheduled"%string).
  { unfold statusOfCar, prisma.findCar. simpl.
    rewrite find_update_car; [reflexivity|reflexivity|].
    unfold prisma.findCar in E. congruence. }
  split; [reflexivity|]. split; [reflexivity|]. split.
  - intros c Hc. destruct (Z.eq_dec c id) as [->|Hne]; [exact Hself|].
    unfold statusOfCar, prisma.findCar in *. simpl.
    rewrite find_update_car_other; [exact Hc|reflexivity|exact Hne].
  - intros x _. exact Hself.
Qed.

Lemma createAssignment_appends now carId shopId month (w w1 : World)
    (a : Assignment) :
  prisma.createAssignment now carId shopId month w = (w1, Ok a) ->
  assignments (db w1) = assignments (db w) ++ [a]
  /\ cars (db w1) = cars (db w)
  /\ shops (db w1) = shops (db w)
  /\ a_carId a = carId /\ a_shopId a = shopId /\ a_month a = month
  /\ a_createdAt a = now.
Proof.
  unfold prisma.createAssignment.
  destruct (prisma.findAssignment _ _); [discriminate|].
  destruct (prisma.findByCarMonth _ _ _); [discriminate|].
  destruct (prisma.findCar _ _); [|discriminate].
  destruct (prisma.findShop _ _); [|discriminate].
  intros H; inversion H; subst. repeat split; reflexivity.
Qed.

Section ApplyWrites.

Variable newDate : string -> option Date.

Lemma applyLoop_appends now l : forall created w w' out,
  applyLoop newDate now l created w = (w', Ok out) ->
  exists news,
    out = created ++ news
    /\ assignments (db w') = assignments (db w) ++ news
    /\ shops (db w') = shops (db w)
    /\ (List.length news <= List.length l)%nat
    /\ (forall c, statusOfCar c (db w) = Some "scheduled"%string ->
                  statusOfCar c (db w') = Some "scheduled"%string)
    /\ (forall a, In a news ->
          statusOfCar (a_carId a) (db w') = Some "scheduled"%string
          /\ a_createdAt a = now
          /\ exists sa, In sa l /\ a_carId a = sa_carId sa
                        /\ a_shopId a = sa_shopId sa
                        /\ newDate (sa_month sa) = Some (a_month a)).
Proof.
  induction l as [|sa l IH]; intros created w w' out; simpl.
  - intros H; inversion H; subst. exists [].
    split; [now rewrite app_nil_r|]. split; [now rewrite app_nil_r|].
    split; [reflexivity|]. split; [simpl; lia|]. split; [auto|]. intros a [].
  - destruct (newDate (sa_month sa)) as [month|] eqn:Edate; [|discriminate].
    unfold bind at 1. unfold readDb at 1.
    destruct (prisma.findByCarMonth (sa_carId sa) month (db w)) as [ex|] eqn:Eex.
    + intros H. destruct (IH _ _ _ _ H) as (news & E1 & E2 & E3 & E4 & E5 & E6).
      exists news. split; [exact E1|]. split; [exact E2|]. split; [exact E3|].
      split; [simpl; lia|]. split; [exact E5|].
      intros x Hin. destruct (E6 x Hin) as (Q1 & Q2 & sa' & Hin' & R).
      split; [exact Q1|]. split; [exact Q2|].
      exists sa'. split; [now right|exact R].
    + unfold bind at 1.
      destruct (prisma.createAssignment now (sa_carId sa) (sa_shopId sa) month w)
        as [w2 [a|e]] eqn:Ec; [|discriminate].
      destruct (createAssignment_appends _ _ _ _ _ _ _ Ec)
        as (A2 & C2 & S2 & F1 & F2 & F3 & F4).
      unfold bind at 1.
      destruct (prisma.updateCarStatus now (sa_carId sa) "scheduled" w2)
        as [w3 [c|e]] eqn:Eu; [|discriminate].
      destruct (updateCarStatus_scheduled _ _ _ _ _ Eu) as (A3 & S3 & P3 & Q3).
      intros H. destruct (IH _ _ _ _ H) as (news & E1 & E2 & E3 & E4 & E5 & E6).
      exists (a :: news).
      split; [rewrite E1, <- app_assoc; reflexivity|].
      split; [rewrite E2, A3, A2, <- app_assoc; reflexivity|].
      split; [congruence|]. split; [simpl; lia|].
      split.
      * intros c0 Hc0. apply E5, P3.
        unfold statusOfCar, prisma.findCar in *. now rewrite C2.
      * intros x [<-|Hin].
        2:{ destruct (E6 x Hin) as (Q1 & Q2 & sa' & Hin' & R).
            split; [exact Q1|]. split; [exact Q2|].
            exists sa'. split; [now right|exact R]. }
        split; [apply E5; rewrite F1; now apply (Q3 c)|].
        split; [exact F4|].
        exists sa. rewrite F1, F2, F3.
        split; [now left|]. split; [reflexivity|]. split; [reflexivity|exact Edate].
Qed.

(** X15.  When apply succeeds, the ledger is the ledger before the call
    followed by the assignments listed in the answer, in order: nothing
    else is added and nothing is removed.  Each of them comes from a tuple
    of the plan, its car is 'scheduled' afterwards, and cars that were
    'scheduled' stay so.  Nothing is recorded in the history arrays, so
    undo does not reach what apply has committed. *)
Theorem apply_appends_what_it_answers now id (w w' : World)
    (created : list Assignment) :
  applyScenario newDate now id w = (w', Ok created) ->
  assignments (db w') = assignments (db w) ++ created
  /\ sameHistory w w'
  /\ (forall c, statusOfCar c (db w) = Some "scheduled"%string ->
                statusOfCar c (db w') = Some "scheduled"%string)
  /\ (forall a, In a created ->
        statusOfCar (a_carId a) (db w') = Some "scheduled"%string
        /\ a_createdAt a = now
        /\ exists sc plan sa,
             prisma.findScenario id (db w) = Some sc
             /\ sc_assignments sc = Some plan /\ In sa plan
             /\ a_carId a = sa_carId sa /\ a_shopId a = sa_shopId sa
             /\ newDate (sa_month sa) = Some (a_month a)).
Proof.
  intros H. pose proof (keeps_applyScenario newDate now id w) as K.
  rewrite H in K. simpl in K.
  unfold applyScenario in H. unfold bind at 1 in H. unfold readDb at 1 in H.
  destruct (prisma.findScenario id (db w)) as [sc|] eqn:Esc; [|discriminate].
  destruct (sc_assignments sc) as [l|] eqn:El; [|discriminate].
  unfold prisma.transaction in H.
  destruct (applyLoop newDate now l [] w) as [w2 [out|e]] eqn:Eloop;
    [|discriminate].
  inversion H; subst; clear H.
  destruct (applyLoop_appends _ _ _ _ _ _ Eloop)
    as (news & E1 & E2 & _ & _ & E5 & E6).
  simpl in E1. subst news.
  split; [exact E2|]. split; [exact K|]. split; [exact E5|].
  intros a Hin. destruct (E6 a Hin) as (Q1 & Q2 & sa & Hsa & R).
  split; [exact Q1|]. split; [exact Q2|].
  exists sc, l, sa. repeat split; tauto.
Qed.

End ApplyWrites.

Lemma apply_appends_what_it_answers_witness :
  exists w' created,
    applyScenario Examples.isoDateOnly (Examples.noon 2024 11 20) 7
      Examples.planWorld = (w', Ok created)
    /\ assignments (db w') = assignments (db Examples.planWorld) ++ created
    /\ sameHistory Examples.planWorld w'.
Proof.
  destruct (applyScenario Examples.isoDateOnly (Examples.noon 2024 11 20) 7
              Examples.planWorld) as [w' [created|e]] eqn:E.
  - exists w', created. split; [reflexivity|].
    destruct (apply_appends_what_it_answers Examples.isoDateOnly _ _ _ _ _ E)
      as (H1 & H2 & _).
    split; [exact H1|exact H2].
  - exfalso. vm_compute in E. discriminate E.
Defined.

(* ===================================================================== *)
(** ** Scenarios: update, delete, and apply afterwards *)
(* ===================================================================== *)

Lemma find_scenario_filter_other (id id' : Z) (l : list Scenario) :
  id' <> id ->
  find (fun s => sc_id s =? id') (filter (fun x => negb (sc_id x =? id)) l)
  = find (fun s => sc_id s =? id') l.
Proof.
  intros Hne. induction l as [|x l IH]; simpl; [reflexivity|].
  destruct (sc_id x =? id) eqn:E; simpl.
  - apply Z.eqb_eq in E.
    assert (E' : (sc_id x =? id') = false) by (apply Z.eqb_neq; congruence).
    now rewrite E'.
  - destruct (sc_id x =? id'); [reflexivity|exact IH].
Qed.

Lemma find_scenario_filter_same (id : Z) (l : list Scenario) :
  find (fun s => sc_id s =? id) (filter (fun x => negb (sc_id x =? id)) l) = None.
Proof.
  induction l as [|x l IH]; simpl; [reflexivity|].
  destruct (sc_id x =? id) eqn:E; simpl; [exact IH|now rewrite E].
Qed.

Lemma find_scenario_update (id id' : Z) (body : ScenarioUpdate) (l : list Scenario) :
  find (fun s => sc_id s =? id')
       (map (fun x => if sc_id x =? id then updatedScenario body x else x) l)
  = if id' =? id
    then option_map (updatedScenario body) (find (fun s => sc_id s =? id') l)
    else find (fun s => sc_id s =? id') l.
Proof.
  induction l as [|x l IH]; simpl.
  - destruct (id' =? id); reflexivity.
  - destruct (sc_id x =? id) eqn:E.
    + apply Z.eqb_eq in E. cbn [updatedScenario sc_id].
      destruct (sc_id x =? id') eqn:E'.
      * apply Z.eqb_eq in E'.
        assert (T : (id' =? id) = true) by (apply Z.eqb_eq; congruence).
        rewrite T. reflexivity.
      * exact IH.
    + destruct (sc_id x =? id') eqn:E'; [|exact IH].
      apply Z.eqb_eq in E'.
      assert (F : (id' =? id) = false).
      { apply Z.eqb_neq. intros C. subst. rewrite Z.eqb_refl in E. discriminate E. }
      now rewrite F.
Qed.

Section ScenarioFacts.

Variable newDate : string -> option Date.



End ScenarioFacts.

(* ===================================================================== *)
(** ** forecast: the projected months and counts *)
(* ===================================================================== *)

Lemma daysInMonth_ge_28 (y m : Z) : 28 <= daysInMonth y m.
Proof.
  unfold daysInMonth.
  destruct (m =? 1); [destruct (isLeap y); lia|].
  destruct ((m =? 3) || (m =? 5) || (m =? 8) || (m =? 10)); lia.
Qed.

Lemma addMonths_fields (d : Date) (k : Z) :
  0 <= month0 (addMonths d k) < 12
  /\ day (addMonths d k) = day d
  /\ year (addMonths d k) * 12 + month0 (addMonths d k)
     = year d * 12 + month0 d + k.
Proof.
  unfold addMonths. cbn [year month0 day].
  pose proof (Z.mod_pos_bound (year d * 12 + month0 d + k) 12 ltac:(lia)).
  pose proof (Z.div_mod (year d * 12 + month0 d + k) 12 ltac:(lia)).
  repeat split; lia.
Qed.

Lemma setMonth_next (d : Date) :
  0 <= month0 d < 12 -> day d <= 28 ->
  setMonth d (month0 d + 1) = addMonths d 1.
Proof.
  intros Hm Hd. unfold setMonth, makeDate.
  pose proof (daysInMonth_ge_28 (year d + (month0 d + 1) / 12)
                ((month0 d + 1) mod 12)) as Hlen.
  destruct (day d >? daysInMonth _ _) eqn:E; [apply Z.gtb_lt in E; lia|].
  unfold addMonths.
  replace (year d * 12 + month0 d + 1) with (month0 d + 1 + year d * 12) by lia.
  rewrite Z.div_add, Z.mod_add by lia.
  f_equal. lia.
Qed.

Lemma addMonths_next (d : Date) (k : Z) :
  addMonths (addMonths d k) 1 = addMonths d (k + 1).
Proof.
  destruct (addMonths_fields d k) as (_ & Hd & Hs).
  unfold addMonths at 1. rewrite Hs.
  unfold addMonths. cbn [day msOfDay].
  replace (year d * 12 + month0 d + k + 1) with (year d * 12 + month0 d + (k + 1))
    by lia.
  reflexivity.
Qed.

Lemma forecastLoop_months (n : nat) : forall now k avg capacity,
  0 <= month0 now < 12 -> day now <= 28 ->
  map fp_month (forecastLoop n (addMonths now k) avg capacity)
  = map (fun i => substring07 (toISOString (addMonths now (k + Z.of_nat i))))
        (seq 1 n).
Proof.
  induction n as [|n IH]; intros now k avg capacity Hm Hd; [reflexivity|].
  cbn [forecastLoop map seq fp_month].
  destruct (addMonths_fields now k) as (Hm' & Hd' & _).
  rewrite setMonth_next by (rewrite ?Hd'; assumption).
  rewrite addMonths_next. f_equal.
  rewrite (IH now (k + 1) avg capacity Hm Hd).
  rewrite <- (seq_shift n 1), map_map. apply map_ext. intros i.
  do 3 f_equal. lia.
Qed.

Lemma addMonths_zero (d : Date) : 0 <= month0 d < 12 -> addMonths d 0 = d.
Proof.
  intros H. unfold addMonths. rewrite Z.add_0_r.
  replace (year d * 12 + month0 d) with (month0 d + year d * 12) by lia.
  rewrite Z.div_add, Z.mod_add by lia.
  rewrite Z.div_small, Z.mod_small by lia.
  destruct d; reflexivity.
Qed.



(** *** Projected counts *)

Lemma stats_fold_size (l : list Assignment) : forall st,
  (List.length
     (months (fold_left
        (fun st a => mkStats (total st + 1)
                       (setAdd (substring07 (toISOString (a_month a))) (months st)))
        l st))
   <= List.length (months st) + List.length l)%nat.
Proof.
  induction l as [|a l IH]; intros st; simpl; [lia|].
  eapply Nat.le_trans; [apply IH|]. simpl.
  unfold setAdd. destruct (existsb _ _); [lia|]. rewrite length_app. simpl. lia.
Qed.

Lemma roundQ_ge_1 (q : Q) : (1 <= q)%Q -> 1 <= roundQ q.
Proof.
  intros H. unfold roundQ. change 1 with (Qfloor 1). apply Qfloor_resp_le.
  apply (Qle_trans _ (q + 0)); [now rewrite Qplus_0_r|].
  apply Qplus_le_r. discriminate.
Qed.

(** The rounded average of a shop with some assignment read is at least 1;
    without any it is 0. *)
Lemma forecast_projected (now : Date) (d : Db) (shop : Shop) :
  let rows := filter (fun a => a_shopId a =? shop_id shop)
                (historicalAssignments now d) in
  let avg := avgPerMonth (statsOf (shop_id shop) (shopStats now d)) in
  (rows <> [] -> 1 <= roundQ avg) /\ (rows = [] -> roundQ avg = 0).
Proof.
  intros rows avg.
  destruct (forecast_average now d shop) as (Ht & _ & Hk & H0).
  fold rows in Ht, Hk, H0.
  split.
  - intros Hne. apply roundQ_ge_1. unfold avg, avgPerMonth.
    set (st := statsOf (shop_id shop) (shopStats now d)) in *.
    assert (Hsize : (List.length (months st) <= List.length rows)%nat).
    { unfold st, shopStats. rewrite statsOf_fold. fold rows.
      change (statsOf (shop_id shop) []) with (mkStats 0 []).
      pose proof (stats_fold_size rows (mkStats 0 [])) as S. simpl in S. exact S. }
    assert (Hpos : (0 < List.length (months st))%nat).
    { destruct rows as [|a rows'] eqn:Er; [congruence|].
      assert (Hin : In (substring07 (toISOString (a_month a))) (months st)).
      { apply Hk. exists a. split; [now left|reflexivity]. }
      destruct (months st); [contradiction|simpl; lia]. }
    destruct (Z.of_nat (List.length (months st)) >? 0) eqn:E;
      [|rewrite Z.gtb_ltb in E; apply Z.ltb_ge in E; lia].
    rewrite Qred_correct.
    apply Qle_shift_div_l.
    + apply inject_Z_pos. lia.
    + rewrite Qmult_1_l, <- Zle_Qle, Ht. lia.
  - intros E. unfold avg. rewrite (H0 E). reflexivity.
Qed.

(** X19.  forecast answers with one series per shop, in table order, each
    with as many periods as asked for (6 when the parameter is absent, not
    a number, or 0; none when it is negative).  Every period of a shop
    projects the same count: at least 1 when the route has read any
    assignment of the shop, and 0 when it has read none. *)
Theorem forecast_shape (now : Date) (q : option Z) (w : World) :
  exists series,
    forecast now q w = (w, Ok series)
    /\ map sf_shopId series = map shop_id (shops (db w))
    /\ (forall f, In f series ->
          List.length (sf_forecast f) = Z.to_nat (monthsParam q))
    /\ (q = None \/ q = Some 0 -> Z.to_nat (monthsParam q) = 6%nat)
    /\ (forall n, q = Some n -> n < 0 -> Z.to_nat (monthsParam q) = 0%nat)
    /\ (forall shop, In shop (shops (db w)) ->
          exists f, In f series
            /\ sf_shopId f = shop_id shop
            /\ (filter (fun a => a_shopId a =? shop_id shop)
                  (historicalAssignments now (db w)) <> [] ->
                forall p, In p (sf_forecast f) -> 1 <= fp_projected p)
            /\ (filter (fun a => a_shopId a =? shop_id shop)
                  (historicalAssignments now (db w)) = [] ->
                forall p, In p (sf_forecast f) -> fp_projected p = 0)).
Proof.
  eexists. split; [reflexivity|].
  split; [rewrite map_map; reflexivity|].
  split.
  { intros f Hin. apply in_map_iff in Hin. destruct Hin as (shop & <- & _).
    unfold forecastOf. cbn [sf_forecast]. apply forecastLoop_flat. }
  split; [intros [->| ->]; reflexivity|].
  split.
  { intros n -> Hn. unfold monthsParam.
    destruct (n =? 0) eqn:E; [apply Z.eqb_eq in E; lia|]. lia. }
  intros shop Hin.
  exists (forecastOf now (shopStats now (db w)) (monthsParam q) shop).
  split; [now apply in_map|]. split; [reflexivity|].
  destruct (forecast_projected now (db w) shop) as [H1 H0].
  unfold forecastOf. cbn [sf_forecast].
  split.
  - intros Hne p Hp.
    destruct (forecastLoop_flat (Z.to_nat (monthsParam q)) now
                (avgPerMonth (statsOf (shop_id shop) (shopStats now (db w))))
                (shop_capacity shop)) as [_ F].
    rewrite (F p Hp). now apply H1.
  - intros E p Hp.
    destruct (forecastLoop_flat (Z.to_nat (monthsParam q)) now
                (avgPerMonth (statsOf (shop_id shop) (shopStats now (db w))))
                (shop_capacity shop)) as [_ F].
    rewrite (F p Hp). now apply H0.
Qed.

(* ===================================================================== *)
(** ** assign: the frame, and undoing it *)
(* ===================================================================== *)

Section AssignFrame.

Variable newDate : string -> option Date.

(** X20.  A successful assign adds exactly one row and touches nothing
    else in the ledger: the table is the old one followed by the answered
    assignment, whose id is the next value of the sequence and whose car,
    shop and month are those of the request; shops and scenarios are as
    before and so is the status of every other car; and the action on top
    of the undo array is the 'create' of that row. *)
Theorem assign_adds_one_row now req (w w' : World) (r : AssignResponse) :
  assign newDate now req w = (w', Ok r) ->
  assignments (db w') = assignments (db w) ++ [res_data r]
  /\ a_id (res_data r) = assignmentSeq (db w) + 1
  /\ assignmentSeq (db w') = assignmentSeq (db w) + 1
  /\ a_carId (res_data r) = req_carId req
  /\ a_shopId (res_data r) = req_shopId req
  /\ newDate (req_month req) = Some (a_month (res_data r))
  /\ a_createdAt (res_data r) = now
  /\ shops (db w') = shops (db w)
  /\ scenarios (db w') = scenarios (db w)
  /\ (forall c, c <> req_carId req ->
        prisma.findCar c (db w') = prisma.findCar c (db w))
  /\ exists rest, pop (undoStack w') = Some (mkAction create (res_data r) now, rest).
Proof.
  intros H.
  destruct (assign_ok_inv newDate _ _ _ _ _ H)
    as (car & shop & md & _ & _ & Edate & _ & Hdata & _ & Hdb & Hundo & _).
  rewrite Hdb, Hundo, Hdata. cbn.
  split; [reflexivity|]. split; [reflexivity|]. split; [reflexivity|].
  split; [reflexivity|]. split; [reflexivity|]. split; [exact Edate|].
  split; [reflexivity|]. split; [reflexivity|]. split; [reflexivity|].
  split.
  - intros c Hne. unfold prisma.findCar. simpl.
    now apply find_update_car_other.
  - apply pop_pushCapped.
Qed.

(** X21.  undo right after a successful assign takes the assignment back:
    the table holds exactly the rows it held before the assign, the car is
    'unscheduled' when it had no assignment before and stays 'scheduled'
    when it had one, and the action has moved to the redo array. *)
Theorem undo_reverses_assign now now2 req (w w1 : World) (r : AssignResponse) :
  db_wf (db w) ->
  assign newDate now req w = (w1, Ok r) ->
  exists w2 sizes,
    undo now2 w1 = (w2, Ok sizes)
    /\ assignments (db w2) = assignments (db w)
    /\ (prisma.countCar (req_carId req) (db w) = 0 ->
        statusOfCar (req_carId req) (db w2) = Some "unscheduled"%string)
    /\ (prisma.countCar (req_carId req) (db w) <> 0 ->
        statusOfCar (req_carId req) (db w2) = Some "scheduled"%string)
    /\ redoStack w2 = [mkAction create (res_data r) now].
Proof.
  intros Hwf H.
  destruct (undo_after_assign newDate now now2 req w w1 r Hwf H)
    as (w2 & sizes & rest & Hu & Ha & _ & _ & _ & H0 & Hn0 & _ & _ & Hr).
  exists w2, sizes. repeat split; assumption.
Qed.

End AssignFrame.

Lemma assign_adds_one_row_witness :
  assignments (db Examples.afterAssign)
  = assignments (db Examples.world40)
    ++ [mkAssignment 41 41 1 (mkDate 2025 0 1 0)
          (Examples.noon 2024 11 20) (Examples.noon 2024 11 20)].
Proof.
  destruct (assign Examples.isoDateOnly (Examples.noon 2024 11 20)
              Examples.assign41 Examples.world40) as [w' [r|e]] eqn:E.
  - destruct (assign_adds_one_row Examples.isoDateOnly _ _ _ _ _ E) as (H & _).
    unfold Examples.afterAssign. rewrite E. cbn [fst]. rewrite H.
    f_equal. vm_compute in E. inversion E. reflexivity.
  - exfalso. vm_compute in E. discriminate E.
Defined.

Lemma undo_reverses_assign_witness :
  exists w2 sizes,
    undo (Examples.noon 2024 11 21) Examples.afterAssign = (w2, Ok sizes)
    /\ assignments (db w2) = assignments (db Examples.world40).
Proof.
  destruct (assign Examples.isoDateOnly (Examples.noon 2024 11 20)
              Examples.assign41 Examples.world40) as [w1 [r|e]] eqn:E.
  - destruct (undo_reverses_assign Examples.isoDateOnly
                (Examples.noon 2024 11 20) (Examples.noon 2024 11 21)
                Examples.assign41 Examples.world40 w1 r)
      as (w2 & sizes & Hu & Ha & _).
    + apply db_wf_check. vm_compute. reflexivity.
    + exact E.
    + exists w2, sizes. unfold Examples.afterAssign. rewrite E. cbn [fst].
      split; [exact Hu|exact Ha].
  - exfalso. vm_compute in E. discriminate E.
Defined.

(* ===================================================================== *)
(** ** forecast: the rows it reads *)
(* ===================================================================== *)

Lemma date_leb_spec (a b : Date) :
  date_leb a b = true <->
  year a < year b
  \/ (year a = year b
      /\ (month0 a < month0 b
          \/ (month0 a = month0 b
              /\ (day a < day b
                  \/ (day a = day b /\ msOfDay a <= msOfDay b))))).
Proof.
  unfold date_leb.
  destruct (year a <? year b) eqn:E1; [apply Z.ltb_lt in E1; intuition lia|].
  apply Z.ltb_ge in E1.
  destruct (year b <? year a) eqn:E2;
    [apply Z.ltb_lt in E2; split; [discriminate|intuition lia]|].
  apply Z.ltb_ge in E2.
  destruct (month0 a <? month0 b) eqn:E3; [apply Z.ltb_lt in E3; intuition lia|].
  apply Z.ltb_ge in E3.
  destruct (month0 b <? month0 a) eqn:E4;
    [apply Z.ltb_lt in E4; split; [discriminate|intuition lia]|].
  apply Z.ltb_ge in E4.
  destruct (day a <? day b) eqn:E5; [apply Z.ltb_lt in E5; intuition lia|].
  apply Z.ltb_ge in E5.
  destruct (day b <? day a) eqn:E6;
    [apply Z.ltb_lt in E6; split; [discriminate|intuition lia]|].
  apply Z.ltb_ge in E6.
  rewrite Z.leb_le. intuition lia.
Qed.

Lemma setMonth_back (d : Date) (k : Z) :
  0 <= month0 d < 12 -> day d <= 28 ->
  setMonth d (month0 d + k) = addMonths d k.
Proof.
  intros Hm Hd. unfold setMonth, makeDate.
  pose proof (daysInMonth_ge_28 (year d + (month0 d + k) / 12)
                ((month0 d + k) mod 12)) as Hlen.
  destruct (day d >? daysInMonth _ _) eqn:E; [apply Z.gtb_lt in E; lia|].
  unfold addMonths.
  replace (year d * 12 + month0 d + k) with (month0 d + k + year d * 12) by lia.
  rewrite Z.div_add, Z.mod_add by lia.
  f_equal. lia.
Qed.



(* ===================================================================== *)
(** ** What the history arrays can hold *)
(* ===================================================================== *)

Lemma historyOnly_same (P : HistoryAction -> Prop) (w w' : World) :
  sameHistory w w' -> historyOnly P w -> historyOnly P w'.
Proof. intros [H1 H2] [U R]. split; [now rewrite H1|now rewrite H2]. Qed.

Lemma keepsOnly_of_keeps (P : HistoryAction -> Prop) {A} (m : M A) :
  keepsHistory m -> keepsOnly P m.
Proof. intros H w Hw. exact (historyOnly_same P _ _ (H w) Hw). Qed.

Lemma keepsOnly_bind (P : HistoryAction -> Prop) {A B} (m : M A) (k : A -> M B) :
  keepsOnly P m -> (forall a, keepsOnly P (k a)) -> keepsOnly P (bind m k).
Proof.
  intros Hm Hk w Hw. unfold bind. specialize (Hm w Hw).
  destruct (m w) as [w1 [a|e]]; simpl in *; [now apply Hk|exact Hm].
Qed.

Lemma Forall_pushCapped (P : HistoryAction -> Prop) (l : list HistoryAction)
    (a : HistoryAction) :
  Forall P l -> P a -> Forall P (pushCapped l a).
Proof.
  intros Hl Ha. unfold pushCapped, shift.
  assert (F : Forall P (l ++ [a])).
  { apply Forall_app. split; [exact Hl|now constructor]. }
  destruct (Z.of_nat (List.length (l ++ [a])) >? MAX_HISTORY); [|exact F].
  destruct (l ++ [a]); [constructor|]. now inversion F.
Qed.

Lemma keepsOnly_addToHistory (P : HistoryAction -> Prop) (a : HistoryAction) :
  P a -> keepsOnly P (addToHistory a).
Proof.
  intros Ha w [U R]. split; simpl; [now apply Forall_pushCapped|constructor].
Qed.

Ltac only_tac :=
  repeat first
    [ apply keepsOnly_bind; [|intros ?]
    | apply keepsOnly_addToHistory; unfold notUpdate; simpl; discriminate
    | solve [apply keepsOnly_of_keeps; auto with history]
    | match goal with
      | |- keepsOnly _ (match ?x with _ => _ end) => destruct x
      | |- keepsOnly _ (if ?x then _ else _) => destruct x
      end ].

Lemma keepsOnly_assign newDate now req :
  keepsOnly notUpdate (assign newDate now req).
Proof. unfold assign. only_tac. Qed.

Lemma keepsOnly_unassign now id : keepsOnly notUpdate (unassign now id).
Proof. unfold unassign. only_tac. Qed.

Lemma keepsOnly_undo (P : HistoryAction -> Prop) now : keepsOnly P (undo now).
Proof.
  intros w [U R]. unfold undo.
  destruct (pop (undoStack w)) as [[action rest]|] eqn:E; [|now split].
  apply pop_some in E.
  eapply historyOnly_same; [apply (keeps_reverse now action true)|].
  rewrite E in U. apply Forall_app in U. destruct U as [U1 U2].
  split; simpl; [exact U1|]. apply Forall_app. now split.
Qed.

Lemma keepsOnly_redo (P : HistoryAction -> Prop) now : keepsOnly P (redo now).
Proof.
  intros w [U R]. unfold redo.
  destruct (pop (redoStack w)) as [[action rest]|] eqn:E; [|now split].
  apply pop_some in E.
  eapply historyOnly_same; [apply (keeps_reverse now action false)|].
  rewrite E in R. apply Forall_app in R. destruct R as [R1 R2].
  split; simpl; [|exact R1]. apply Forall_app. now split.
Qed.

(** X23.  In every reachable state both history arrays hold only 'create'
    and 'delete' actions: no route logs an 'update', so the branches of
    undo and redo for that type are never taken. *)
Theorem history_never_holds_update (newDate : string -> option Date) (w : World) :
  reachable newDate w ->
  forall action, In action (undoStack w ++ redoStack w) ->
    act_type action = create \/ act_type action = delete.
Proof.
  intros Hreach.
  assert (H : historyOnly notUpdate w).
  { induction Hreach as [d|w w' _ IH S].
    - split; constructor.
    - destruct S.
      + now apply keepsOnly_assign.
      + now apply keepsOnly_unassign.
      + now apply keepsOnly_undo.
      + now apply keepsOnly_redo.
      + exact IH.
      + now apply (keepsOnly_of_keeps _ _ (keeps_evaluate now body)).
      + now apply (keepsOnly_of_keeps _ _ (keeps_applyScenario newDate now id)).
      + now apply (keepsOnly_of_keeps _ _ (keeps_forecast now q)).
      + now apply (historyOnly_same notUpdate w). }
  intros action Hin. destruct H as [U R].
  apply in_app_iff in Hin.
  assert (N : notUpdate action).
  { destruct Hin as [Hin|Hin];
      [exact (proj1 (Forall_forall _ _) U action Hin)
      |exact (proj1 (Forall_forall _ _) R action Hin)]. }
  unfold notUpdate in N. destruct (act_type action); [now left|congruence|now right].
Qed.

Lemma history_never_holds_update_witness :
  reachable Examples.isoDateOnly Examples.afterAssign
  /\ Forall (fun action => act_type action = create \/ act_type action = delete)
       (undoStack Examples.afterAssign ++ redoStack Examples.afterAssign).
Proof.
  assert (R : reachable Examples.isoDateOnly Examples.afterAssign).
  { apply (reach_step _ Examples.world40).
    - apply reach_start.
    - exact (step_assign Examples.isoDateOnly (Examples.noon 2024 11 20)
               Examples.assign41 Examples.world40). }
  split; [exact R|].
  apply Forall_forall.
  exact (history_never_holds_update Examples.isoDateOnly Examples.afterAssign R).
Defined.

(* ===================================================================== *)
(** ** Further statements at the example data *)
(* ===================================================================== *)

Section RedoAfterUndo.

Variable newDate : string -> option Date.

(** X24.  redo after the undo of an assign does not bring the old row
    back: it inserts a new one with the same car, shop and month but the
    next id of the sequence and the time of the redo, while the action it
    puts back on the undo array still names the old id; a further undo
    therefore finds no record to delete and throws (Prisma P2025). *)
Theorem redo_of_undone_assign_renumbers now now2 now3 now4 req
    (w w1 : World) (r : AssignResponse) :
  db_wf (db w) ->
  assign newDate now req w = (w1, Ok r) ->
  exists w2 s2 w3 s3,
    undo now2 w1 = (w2, Ok s2)
    /\ redo now3 w2 = (w3, Ok s3)
    /\ assignments (db w3)
       = assignments (db w)
         ++ [mkAssignment (a_id (res_data r) + 1) (a_carId (res_data r))
               (a_shopId (res_data r)) (a_month (res_data r)) now3 now3]
    /\ undoStack w3 = undoStack w1
    /\ snd (undo now4 w3) = Throw (PrismaError P2025).
Proof. exact (undo_redo_renumbers newDate now now2 now3 now4 req w w1 r). Qed.

End RedoAfterUndo.

Lemma redo_of_undone_assign_renumbers_witness :
  exists w2 s2 w3 s3,
    undo (Examples.noon 2024 11 21) Examples.afterAssign = (w2, Ok s2)
    /\ redo (Examples.noon 2024 11 22) w2 = (w3, Ok s3)
    /\ snd (undo (Examples.noon 2024 11 23) w3) = Throw (PrismaError P2025).
Proof.
  destruct (assign Examples.isoDateOnly (Examples.noon 2024 11 20)
              Examples.assign41 Examples.world40) as [w1 [r|e]] eqn:E.
  - destruct (redo_of_undone_assign_renumbers Examples.isoDateOnly
                (Examples.noon 2024 11 20) (Examples.noon 2024 11 21)
                (Examples.noon 2024 11 22) (Examples.noon 2024 11 23)
                Examples.assign41 Examples.world40 w1 r)
      as (w2 & s2 & w3 & s3 & Hu & Hr & _ & _ & Hf).
    + apply db_wf_check. vm_compute. reflexivity.
    + exact E.
    + exists w2, s2, w3, s3. unfold Examples.afterAssign. rewrite E. cbn [fst].
      repeat split; assumption.
  - exfalso. vm_compute in E. discriminate E.
Defined.


Lemma undo_of_unassign_reinserts_witness :
  exists w1 w2 sizes,
    unassign (Examples.noon 2024 11 20) 40 Examples.world40 = (w1, Ok tt)
    /\ undo (Examples.noon 2024 11 21) w1 = (w2, Ok sizes)
    /\ statusOfCar 40 (db w2) = Some "scheduled"%string.
Proof.
  destruct (undo_of_unassign_reinserts (Examples.noon 2024 11 20)
              (Examples.noon 2024 11 21) 40 Examples.world40
              (mkAssignment 40 40 1 Examples.dec2024
                 (Examples.noon 2024 1 2) (Examples.noon 2024 1 2)))
    as (w1 & w2 & sizes & H1 & H2 & _ & H4).
  - apply ledgerInvb_sound. vm_compute. reflexivity.
  - vm_compute. reflexivity.
  - exists w1, w2, sizes. repeat split; assumption.
Defined.

Lemma redo_of_unassign_throws_witness :
  exists w1 w2 sizes,
    unassign (Examples.noon 2024 11 20) 40 Examples.world40 = (w1, Ok tt)
    /\ undo (Examples.noon 2024 11 21) w1 = (w2, Ok sizes)
    /\ snd (redo (Examples.noon 2024 11 22) w2) = Throw (PrismaError P2025).
Proof.
  destruct (redo_of_unassign_throws (Examples.noon 2024 11 20)
              (Examples.noon 2024 11 21) (Examples.noon 2024 11 22) 40
              Examples.world40
              (mkAssignment 40 40 1 Examples.dec2024
                 (Examples.noon 2024 1 2) (Examples.noon 2024 1 2)))
    as (w1 & w2 & sizes & H1 & H2 & H3).
  - apply ledgerInvb_sound. vm_compute. reflexivity.
  - vm_compute. reflexivity.
  - exists w1, w2, sizes. split; [exact H1|]. split; [exact H2|].
    now rewrite H3.
Defined.

Lemma undo_redo_restore_the_arrays_witness :
  undoStack (fst (redo (Examples.noon 2024 11 22)
                    (fst (undo (Examples.noon 2024 11 21) Examples.afterAssign))))
  = undoStack Examples.afterAssign.
Proof.
  destruct (undo_redo_restore_the_arrays (Examples.noon 2024 11 21)
              (Examples.noon 2024 11 22) Examples.afterAssign) as [H _].
  apply H. vm_compute. discriminate.
Defined.



Lemma evaluate_ignores_cars_and_unknown_shops_witness :
  evaluation (Examples.noon 2024 11 20) Examples.ledger40
    (Examples.proposedFor 40 10 1 "2024-12-01"
     ++ [mkScenarioAssignment 41 99 "2024-12-01"])
  = evaluation (Examples.noon 2024 11 20) Examples.ledger40
      (Examples.proposedFor 40 10 1 "2024-12-01").
Proof.
  destruct (evaluate_ignores_cars_and_unknown_shops (Examples.noon 2024 11 20)
              Examples.ledger40 (Examples.proposedFor 40 10 1 "2024-12-01"))
    as [_ H].
  apply H. intros p [<-|[]]. reflexivity.
Defined.
